(** * The typing-match engine of the code typing game

    A shallow embedding of [TypingInputWidget] (src/typing_game_gui.py):
    the four session attributes, [set_target_code], [keyPressEvent] and the
    three metric getters, followed by the properties of the typing session
    that the specification states about them.

    Conventions of the embedding.
    - A Python [str] is the list of its code points; a Python [int] is a [Z].
    - A Python [float] is idealised as an exact rational ([Q]); the value
      type [pynum] keeps the distinction between [0] and [0.0].
    - A method is a computation in the monad [M]: it reads and writes the
      attributes of [self], may raise, and logs what it does to the outside
      (signals emitted, calls on the Qt base class) in a trace. *)

From Stdlib Require Import ZArith NArith QArith List Bool Lia String Ascii.
Import ListNotations.
Open Scope Z_scope.

(** ** Python values *)

Definition char := N.
Definition str := list char.

(** The literal ['\n']. *)
Definition newline : str := [10%N].

(** A string literal of the source, as code points. *)
Definition py (s : string) : str :=
  map N_of_ascii (list_ascii_of_string s).

(** [len(s)]. *)
Definition len (s : str) : Z := Z.of_nat (List.length s).

(** Truth value of a [str]: the empty string is false. *)
Definition truthy (s : str) : bool :=
  match s with
  | [] => false
  | _ :: _ => true
  end.

(** Truth value of a set of Qt flags: some flag is set. *)
Definition flags (f : Z) : bool := negb (f =? 0).

(** [s == t] on strings. *)
Fixpoint str_eqb (s t : str) : bool :=
  match s, t with
  | [], [] => true
  | a :: s', b :: t' => N.eqb a b && str_eqb s' t'
  | _, _ => false
  end.

Inductive pynum :=
| PyInt (z : Z)
| PyFloat (q : Q).

(** The numeric value of a Python number. *)
Definition to_Q (v : pynum) : Q :=
  match v with
  | PyInt z => inject_Z z
  | PyFloat q => q
  end.

(** ** Qt constants and events *)

Definition Key_unknown : Z := 0x01ffffff.
Definition Key_Return : Z := 0x01000004.
Definition Key_Enter : Z := 0x01000005.
Definition NoModifier : Z := 0.
Definition ShiftModifier : Z := 0x02000000.
Definition ControlModifier : Z := 0x04000000.
Definition AltModifier : Z := 0x08000000.

Record QKeyEvent := mkEvent {
  key : Z;
  text : str;
  modifiers : Z
}.

(** ** The widget and what it does to the outside *)

Record widget := mkWidget {
  _target_code : str;
  _current_position : Z;
  _error_count : Z;
  _total_keystrokes : Z
}.

Inductive effect :=
| Subscript (i : Z)                       (* [self._target_code[i]] was read *)
| typing_progress (position : Z) (correct : bool)
| typing_complete
| insertText (s : str)
| accept
| super_keyPressEvent (event : QKeyEvent)
| clear.

Inductive exn := IndexError | ZeroDivisionError.

Inductive result (A : Type) :=
| Ok (a : A)
| Raise (e : exn).
Arguments Ok {A} a.
Arguments Raise {A} e.

(** ** The method monad *)

Definition M (A : Type) : Type := widget -> result (A * widget * list effect).

Definition ret {A} (a : A) : M A := fun w => Ok (a, w, []).

Definition bind {A B} (m : M A) (f : A -> M B) : M B :=
  fun w =>
    match m w with
    | Raise e => Raise e
    | Ok (a, w1, t1) =>
        match f a w1 with
        | Raise e => Raise e
        | Ok (b, w2, t2) => Ok (b, w2, t1 ++ t2)
        end
    end.

Declare Scope py_scope.
Delimit Scope py_scope with py.
Notation "x <- m ;; k" := (bind m (fun x => k))
  (at level 61, m at next level, right associativity) : py_scope.
Notation "m ;; k" := (bind m (fun _ => k))
  (at level 61, right associativity) : py_scope.
Open Scope py_scope.

(** Reading an attribute of [self]. *)
Definition self {A} (field : widget -> A) : M A := fun w => Ok (field w, w, []).

(** Assigning an attribute of [self]. *)
Definition set_target_code_attr (v : str) : M unit :=
  fun w => Ok (tt, mkWidget v (_current_position w) (_error_count w) (_total_keystrokes w), []).
Definition set_current_position (v : Z) : M unit :=
  fun w => Ok (tt, mkWidget (_target_code w) v (_error_count w) (_total_keystrokes w), []).
Definition set_error_count (v : Z) : M unit :=
  fun w => Ok (tt, mkWidget (_target_code w) (_current_position w) v (_total_keystrokes w), []).
Definition set_total_keystrokes (v : Z) : M unit :=
  fun w => Ok (tt, mkWidget (_target_code w) (_current_position w) (_error_count w) v, []).

(** Something visible from outside the four attributes. *)
Definition tell (e : effect) : M unit := fun w => Ok (tt, w, [e]).

Definition raise {A} (e : exn) : M A := fun _ => Raise e.

(** [s[i]]: a negative index counts from the end, an index out of range
    raises [IndexError]; the result is a string of one character. *)
Definition subscript (s : str) (i : Z) : M str :=
  let j := if i <? 0 then i + len s else i in
  if (j <? 0) || (len s <=? j) then raise IndexError
  else tell (Subscript i) ;; ret [nth (Z.to_nat j) s 0%N].

(** [a / b] on numbers: true division, [ZeroDivisionError] on a zero divisor. *)
Definition truediv (a b : Q) : M Q :=
  if Qeq_bool b 0 then raise ZeroDivisionError else ret (a / b)%Q.

(** ** TypingInputWidget *)

(** The attributes as [__init__] leaves them (lines 77-80). *)
Definition init : widget := mkWidget [] 0 0 0.

(** Lines 82-88. *)
Definition set_target_code (code : str) : M unit :=
  tell clear ;;
  set_target_code_attr code ;;
  set_current_position 0 ;;
  set_error_count 0 ;;
  set_total_keystrokes 0.

(** Lines 90-166. *)
Definition keyPressEvent (event : QKeyEvent) : M unit :=
  target_code <- self _target_code ;;
  if negb (truthy target_code) then
    ret tt
  else if (key event =? Key_Return) || (key event =? Key_Enter) then
    pos <- self _current_position ;;
    target_code <- self _target_code ;;
    (if pos <? len target_code then
       expected_char <- subscript target_code pos ;;
       total <- self _total_keystrokes ;;
       set_total_keystrokes (total + 1) ;;
       let is_correct := str_eqb expected_char newline in
       (if negb is_correct then
          errors <- self _error_count ;;
          set_error_count (errors + 1)
        else ret tt) ;;
       pos <- self _current_position ;;
       tell (typing_progress pos is_correct) ;;
       (if is_correct then
          pos <- self _current_position ;;
          set_current_position (pos + 1) ;;
          tell (insertText newline) ;;
          pos <- self _current_position ;;
          target_code <- self _target_code ;;
          (if len target_code <=? pos then tell typing_complete else ret tt)
        else ret tt)
     else ret tt) ;;
    tell accept
  else if truthy (text event)
          && negb (flags (Z.land (modifiers event) (Z.lor ControlModifier AltModifier))) then
    pos <- self _current_position ;;
    target_code <- self _target_code ;;
    (if pos <? len target_code then
       expected_char <- subscript target_code pos ;;
       let typed_char := text event in
       total <- self _total_keystrokes ;;
       set_total_keystrokes (total + 1) ;;
       let is_correct := str_eqb typed_char expected_char in
       (if negb is_correct then
          errors <- self _error_count ;;
          set_error_count (errors + 1)
        else ret tt) ;;
       pos <- self _current_position ;;
       tell (typing_progress pos is_correct) ;;
       (if is_correct then
          pos <- self _current_position ;;
          set_current_position (pos + 1) ;;
          tell (insertText typed_char) ;;
          pos <- self _current_position ;;
          target_code <- self _target_code ;;
          (if len target_code <=? pos then tell typing_complete else ret tt)
        else ret tt)
     else ret tt) ;;
    tell accept
  else
    tell (super_keyPressEvent event).

(** Lines 168-172. *)
Definition get_progress_percentage : M pynum :=
  target_code <- self _target_code ;;
  if negb (truthy target_code) then
    ret (PyInt 0)
  else
    pos <- self _current_position ;;
    target_code <- self _target_code ;;
    q <- truediv (inject_Z pos) (inject_Z (len target_code)) ;;
    ret (PyFloat (q * 100)).

(** Lines 174-178. *)
Definition get_accuracy : M pynum :=
  total <- self _total_keystrokes ;;
  if total =? 0 then
    ret (PyFloat 100)
  else
    errors <- self _error_count ;;
    total <- self _total_keystrokes ;;
    q <- truediv (inject_Z errors) (inject_Z total) ;;
    ret (PyFloat (100 - q * 100)).

(** Lines 180-192. *)
Definition get_wpm (elapsed_seconds : Z) : M pynum :=
  if elapsed_seconds =? 0 then
    ret (PyInt 0)
  else
    pos <- self _current_position ;;
    words <- truediv (inject_Z pos) 5 ;;
    minutes <- truediv (inject_Z elapsed_seconds) 60 ;;
    if Qeq_bool minutes 0 then
      ret (PyInt 0)
    else
      q <- truediv words minutes ;;
      ret (PyFloat q).

(** ** Sessions: a target is set, then key events arrive one at a time *)

Fixpoint run (events : list QKeyEvent) : M unit :=
  match events with
  | [] => ret tt
  | event :: rest => keyPressEvent event ;; run rest
  end.

Definition session (code : str) (events : list QKeyEvent) : M unit :=
  set_target_code code ;; run events.

(** Key events used in the scenarios: a key other than Enter and Return
    that carries the text [s], and the two Enter keys, whose text in Qt is
    a carriage return. *)
Definition press (s : string) : QKeyEvent := mkEvent Key_unknown (py s) NoModifier.
Definition press_return : QKeyEvent := mkEvent Key_Return [13%N] NoModifier.
Definition press_enter : QKeyEvent := mkEvent Key_Enter [13%N] NoModifier.

(** Every call a client of the widget can make, and an arbitrary run of
    them on a freshly constructed widget. *)
Inductive call :=
| Call_set_target_code (code : str)
| Call_keyPressEvent (event : QKeyEvent)
| Call_get_progress_percentage
| Call_get_accuracy
| Call_get_wpm (elapsed_seconds : Z).

Definition perform (c : call) : M unit :=
  match c with
  | Call_set_target_code code => set_target_code code
  | Call_keyPressEvent event => keyPressEvent event
  | Call_get_progress_percentage => get_progress_percentage ;; ret tt
  | Call_get_accuracy => get_accuracy ;; ret tt
  | Call_get_wpm elapsed_seconds => get_wpm elapsed_seconds ;; ret tt
  end.

Fixpoint exec (calls : list call) : M unit :=
  match calls with
  | [] => ret tt
  | c :: rest => perform c ;; exec rest
  end.

(** ** Reading a trace *)

(** The outcomes [(position, is_correct)] sent to the progress observer. *)
Fixpoint outcomes (tr : list effect) : list (Z * bool) :=
  match tr with
  | [] => []
  | typing_progress p ok :: tr' => (p, ok) :: outcomes tr'
  | _ :: tr' => outcomes tr'
  end.

(** How many times the completion signal was emitted. *)
Fixpoint completions (tr : list effect) : nat :=
  match tr with
  | [] => O
  | typing_complete :: tr' => S (completions tr')
  | _ :: tr' => completions tr'
  end.

(** The indices at which the target was read. *)
Fixpoint reads (tr : list effect) : list Z :=
  match tr with
  | [] => []
  | Subscript i :: tr' => i :: reads tr'
  | _ :: tr' => reads tr'
  end.

(** ** What the handler compares *)

(** The logical character of an input event, as the handler takes it: the
    newline in the Enter branch (line 107), the character of [event.text()]
    in the character branch (lines 132-142) when the text is one character
    and neither Control nor Alt is held; any other event carries none. *)
Definition logical_char (event : QKeyEvent) : option char :=
  if (key event =? Key_Return) || (key event =? Key_Enter) then Some 10%N
  else match text event with
       | [c] => if flags (Z.land (modifiers event) (Z.lor ControlModifier AltModifier))
                then None else Some c
       | _ => None
       end.

(** The character of the target at [position], meaningful for
    [0 <= position < length]. *)
Definition expectedChar (w : widget) (position : Z) : char :=
  nth (Z.to_nat position) (_target_code w) 0%N.

(** The data-model invariant of a session. *)
Definition invariant (w : widget) : Prop :=
  0 <= _current_position w <= len (_target_code w) /\
  0 <= _error_count w <= _total_keystrokes w.

(** ** The transition rule as the specification words it

    A second definition of one step, written from the text of the
    specification (section 4.2) and not from the source; the handler is
    compared with it below. *)

Inductive signal :=
| Outcome (position : Z) (isCorrect : bool)
| Completion.

(** The transition rule of the specification, steps 1 to 7, on one
    logical character. *)
Definition spec_transition (c : char) (w : widget) : widget * list signal :=
  let position := _current_position w in
  if truthy (_target_code w) && negb (position =? len (_target_code w)) then
    let expected := expectedChar w position in
    let totalKeystrokes := _total_keystrokes w + 1 in
    let isCorrect := N.eqb c expected in
    let errorCount := if isCorrect then _error_count w else _error_count w + 1 in
    let position' := if isCorrect then position + 1 else position in
    (mkWidget (_target_code w) position' errorCount totalKeystrokes,
     Outcome position isCorrect ::
     (if isCorrect && (position' =? len (_target_code w)) then [Completion] else []))
  else (w, []).

(** The signals of a trace, in order. *)
Fixpoint signals (tr : list effect) : list signal :=
  match tr with
  | [] => []
  | typing_progress p ok :: tr' => Outcome p ok :: signals tr'
  | typing_complete :: tr' => Completion :: signals tr'
  | _ :: tr' => signals tr'
  end.

(** ** Closed forms of one key event, used in the proofs *)

(** What an evaluated keystroke does, given the string [typed] that is
    compared with the expected character. *)
Definition judged (typed : str) (w : widget) : bool :=
  str_eqb typed [expectedChar w (_current_position w)].

Definition after_keystroke (typed : str) (w : widget) : widget :=
  let ok := judged typed w in
  mkWidget (_target_code w)
           (if ok then _current_position w + 1 else _current_position w)
           (if ok then _error_count w else _error_count w + 1)
           (_total_keystrokes w + 1).

Definition trace_of_keystroke (typed : str) (w : widget) : list effect :=
  let ok := judged typed w in
  Subscript (_current_position w) :: typing_progress (_current_position w) ok ::
  (if ok then
     insertText typed ::
     (if len (_target_code w) <=? _current_position w + 1 then [typing_complete] else [])
   else []) ++ [accept].

(** The string an event is judged by, when the event is evaluated. *)
Definition typed_string (event : QKeyEvent) : option str :=
  if (key event =? Key_Return) || (key event =? Key_Enter) then Some newline
  else if truthy (text event)
          && negb (flags (Z.land (modifiers event) (Z.lor ControlModifier AltModifier)))
       then Some (text event)
       else None.

(** One key event, in closed form. *)
Definition key_step (event : QKeyEvent) (w : widget) : widget * list effect :=
  if truthy (_target_code w) then
    match typed_string event with
    | Some typed =>
        if _current_position w <? len (_target_code w)
        then (after_keystroke typed w, trace_of_keystroke typed w)
        else (w, [accept])
    | None => (w, [super_keyPressEvent event])
    end
  else (w, []).

From Stdlib Require Import Lqa.

(** ** More readings of a trace and of an event *)

(** The texts passed to [insertText], in order, one after the other. *)
Fixpoint inserted (tr : list effect) : str :=
  match tr with
  | [] => []
  | insertText s :: tr' => s ++ inserted tr'
  | _ :: tr' => inserted tr'
  end.

(** The positions of the outcomes judged correct, in order. *)
Definition correct_positions (tr : list effect) : list Z :=
  map fst (filter (fun o => snd o) (outcomes tr)).

(** The number of outcomes judged correct, and judged incorrect. *)
Definition correct_count (tr : list effect) : Z :=
  Z.of_nat (List.length (filter (fun o => snd o) (outcomes tr))).
Definition error_outcomes (tr : list effect) : Z :=
  Z.of_nat (List.length (filter (fun o => negb (snd o)) (outcomes tr))).

(** The positions [from, from + 1, ..., from + n - 1]. *)
Fixpoint positions (from : Z) (n : nat) : list Z :=
  match n with
  | O => []
  | S n' => from :: positions (from + 1) n'
  end.

(** An event the handler evaluates when the position is inside the target:
    Enter, Return, or a text without Control and Alt (lines 97 and 132). *)
Definition is_evaluated (event : QKeyEvent) : bool :=
  (key event =? Key_Return) || (key event =? Key_Enter)
  || (truthy (text event)
      && negb (flags (Z.land (modifiers event) (Z.lor ControlModifier AltModifier)))).

(** ** TypingGameWindow: the clock, the slots and the connected handler

    The window owns the typing widget and the two clock attributes.  What
    it does to its other Qt children (labels, progress bar, timer, dialog) is
    logged as [gui] effects; the calls made by the typing widget on itself
    are logged under [input].  A signal of the typing widget is connected to
    a slot of the window in the same thread (lines 279-280), so emitting it
    runs the slot at once, at the place of the [emit]. *)

(** [str(z)] for an integer: its decimal digits, with a minus sign when
    negative. *)
Fixpoint uint_chars (d : Decimal.uint) : str :=
  match d with
  | Decimal.Nil => []
  | Decimal.D0 u => 48%N :: uint_chars u
  | Decimal.D1 u => 49%N :: uint_chars u
  | Decimal.D2 u => 50%N :: uint_chars u
  | Decimal.D3 u => 51%N :: uint_chars u
  | Decimal.D4 u => 52%N :: uint_chars u
  | Decimal.D5 u => 53%N :: uint_chars u
  | Decimal.D6 u => 54%N :: uint_chars u
  | Decimal.D7 u => 55%N :: uint_chars u
  | Decimal.D8 u => 56%N :: uint_chars u
  | Decimal.D9 u => 57%N :: uint_chars u
  end.

Definition digits (z : Z) : str :=
  match Z.to_int (Z.abs z) with
  | Decimal.Pos d => uint_chars d
  | Decimal.Neg d => uint_chars d
  end.

(** The format [{z:02d}]: the sign first, then the digits padded with
    zeros so that the whole is at least two characters wide. *)
Definition format_02d (z : Z) : str :=
  let ds := digits z in
  if z <? 0
  then 45%N :: repeat 48%N (1 - List.length ds) ++ ds
  else repeat 48%N (2 - List.length ds) ++ ds.

Module Game.

Record window := mkWindow {
  typing_input : widget;
  remaining_seconds : Z;
  elapsed_seconds : Z;
  current_code : str
}.

Inductive gui :=
| input (e : effect)
| highlight_current_position (position : Z) (correct : bool)
| scroll_to_position (position : Z)
| progress_bar_setValue_int (progress : pynum)   (* [setValue(int(progress))] *)
| timer_display_setText (s : str)
| game_timer_stop
| typing_input_setEnabled (enabled : bool)
| language_combo_setEnabled (enabled : bool)
| timer_combo_setEnabled (enabled : bool)
| start_button_setEnabled (enabled : bool)
  (* the results dialog of [end_game]; its text is built from these four *)
| QMessageBox_information (completed : bool) (accuracy wpm progress : pynum).

Definition G (A : Type) : Type := window -> result (A * window * list gui).

Definition gret {A} (a : A) : G A := fun g => Ok (a, g, []).

Definition gbind {A B} (m : G A) (f : A -> G B) : G B :=
  fun g =>
    match m g with
    | Raise e => Raise e
    | Ok (a, g1, t1) =>
        match f a g1 with
        | Raise e => Raise e
        | Ok (b, g2, t2) => Ok (b, g2, t1 ++ t2)
        end
    end.

Declare Scope game_scope.
Notation "x <- m ;; k" := (gbind m (fun x => k))
  (at level 61, m at next level, right associativity) : game_scope.
Notation "m ;; k" := (gbind m (fun _ => k))
  (at level 61, right associativity) : game_scope.
Local Open Scope game_scope.

Definition gself {A} (field : window -> A) : G A := fun g => Ok (field g, g, []).

Definition set_remaining_seconds (v : Z) : G unit :=
  fun g => Ok (tt, mkWindow (typing_input g) v (elapsed_seconds g) (current_code g), []).
Definition set_elapsed_seconds (v : Z) : G unit :=
  fun g => Ok (tt, mkWindow (typing_input g) (remaining_seconds g) v (current_code g), []).

Definition gtell (e : gui) : G unit := fun g => Ok (tt, g, [e]).

(** A method of [self.typing_input], run on the widget the window owns. *)
Definition on_input {A} (m : M A) : G A :=
  fun g =>
    match m (typing_input g) with
    | Raise e => Raise e
    | Ok (a, w, tr) =>
        Ok (a, mkWindow w (remaining_seconds g) (elapsed_seconds g) (current_code g),
            map input tr)
    end.

(** Lines 357-361. *)
Definition update_timer_display : G unit :=
  remaining <- gself remaining_seconds ;;
  let minutes := remaining / 60 in
  remaining <- gself remaining_seconds ;;
  let seconds := remaining mod 60 in
  gtell (timer_display_setText
           (py "Time: " ++ format_02d minutes ++ py ":" ++ format_02d seconds)).

(** Lines 363-373. *)
Definition update_typing_progress (position : Z) (is_correct : bool) : G unit :=
  gtell (highlight_current_position position is_correct) ;;
  gtell (scroll_to_position position) ;;
  progress <- on_input get_progress_percentage ;;
  gtell (progress_bar_setValue_int progress).

(** Lines 379-413. *)
Definition end_game (completed : bool) : G unit :=
  gtell game_timer_stop ;;
  gtell (typing_input_setEnabled false) ;;
  gtell (language_combo_setEnabled true) ;;
  gtell (timer_combo_setEnabled true) ;;
  gtell (start_button_setEnabled true) ;;
  accuracy <- on_input get_accuracy ;;
  elapsed <- gself elapsed_seconds ;;
  wpm <- on_input (get_wpm elapsed) ;;
  progress <- on_input get_progress_percentage ;;
  gtell (QMessageBox_information completed accuracy wpm progress) ;;
  if completed
  then gtell (timer_display_setText (py "Completed!"))
  else gtell (timer_display_setText (py "Time's Up!")).

(** Lines 375-377. *)
Definition handle_typing_complete : G unit := end_game true.

(** Lines 347-355. *)
Definition update_timer : G unit :=
  remaining <- gself remaining_seconds ;;
  set_remaining_seconds (remaining - 1) ;;
  elapsed <- gself elapsed_seconds ;;
  set_elapsed_seconds (elapsed + 1) ;;
  update_timer_display ;;
  remaining <- gself remaining_seconds ;;
  if remaining <=? 0 then end_game false else gret tt.

(** [update_timer] called [n] times in a row, as the running timer does. *)
Fixpoint ticks (n : nat) : G unit :=
  match n with
  | O => gret tt
  | S n' => update_timer ;; ticks n'
  end.

(** [TypingInputWidget.keyPressEvent] (lines 90-166) with the two signals
    connected as in lines 279-280: [typing_progress.emit] runs
    [update_typing_progress] and [typing_complete.emit] runs
    [handle_typing_complete]. *)
Definition keyPressEvent (event : QKeyEvent) : G unit :=
  target_code <- on_input (self _target_code) ;;
  if negb (truthy target_code) then
    gret tt
  else if (key event =? Key_Return) || (key event =? Key_Enter) then
    pos <- on_input (self _current_position) ;;
    target_code <- on_input (self _target_code) ;;
    (if pos <? len target_code then
       expected_char <- on_input (subscript target_code pos) ;;
       total <- on_input (self _total_keystrokes) ;;
       on_input (set_total_keystrokes (total + 1)) ;;
       let is_correct := str_eqb expected_char newline in
       (if negb is_correct then
          errors <- on_input (self _error_count) ;;
          on_input (set_error_count (errors + 1))
        else gret tt) ;;
       pos <- on_input (self _current_position) ;;
       update_typing_progress pos is_correct ;;
       (if is_correct then
          pos <- on_input (self _current_position) ;;
          on_input (set_current_position (pos + 1)) ;;
          on_input (tell (insertText newline)) ;;
          pos <- on_input (self _current_position) ;;
          target_code <- on_input (self _target_code) ;;
          (if len target_code <=? pos then handle_typing_complete else gret tt)
        else gret tt)
     else gret tt) ;;
    on_input (tell accept)
  else if truthy (text event)
          && negb (flags (Z.land (modifiers event) (Z.lor ControlModifier AltModifier))) then
    pos <- on_input (self _current_position) ;;
    target_code <- on_input (self _target_code) ;;
    (if pos <? len target_code then
       expected_char <- on_input (subscript target_code pos) ;;
       let typed_char := text event in
       total <- on_input (self _total_keystrokes) ;;
       on_input (set_total_keystrokes (total + 1)) ;;
       let is_correct := str_eqb typed_char expected_char in
       (if negb is_correct then
          errors <- on_input (self _error_count) ;;
          on_input (set_error_count (errors + 1))
        else gret tt) ;;
       pos <- on_input (self _current_position) ;;
       update_typing_progress pos is_correct ;;
       (if is_correct then
          pos <- on_input (self _current_position) ;;
          on_input (set_current_position (pos + 1)) ;;
          on_input (tell (insertText typed_char)) ;;
          pos <- on_input (self _current_position) ;;
          target_code <- on_input (self _target_code) ;;
          (if len target_code <=? pos then handle_typing_complete else gret tt)
        else gret tt)
     else gret tt) ;;
    on_input (tell accept)
  else
    on_input (tell (super_keyPressEvent event)).

End Game.

(** ** Closed forms for the window, used in the proofs *)

(** The values the three getters return. *)
Definition progress_value (w : widget) : pynum :=
  if truthy (_target_code w)
  then PyFloat (inject_Z (_current_position w) / inject_Z (len (_target_code w)) * 100)
  else PyInt 0.

Definition accuracy_value (w : widget) : pynum :=
  if _total_keystrokes w =? 0
  then PyFloat 100
  else PyFloat (100 - inject_Z (_error_count w) / inject_Z (_total_keystrokes w) * 100).

Definition wpm_value (elapsed : Z) (w : widget) : pynum :=
  if elapsed =? 0
  then PyInt 0
  else PyFloat ((inject_Z (_current_position w) / 5) / (inject_Z elapsed / 60)).

(** The digit character of [d], for [0 <= d <= 9]. *)
Definition digit_char (d : Z) : char := (48 + Z.to_N d)%N.

(** The arguments of the calls to [progress_bar.setValue(int(...))], of
    the calls to [highlight_current_position] and of the results dialogs in
    a trace of the window, and the number of times the timer was stopped. *)
Fixpoint bar_values (tr : list Game.gui) : list pynum :=
  match tr with
  | [] => []
  | Game.progress_bar_setValue_int v :: tr' => v :: bar_values tr'
  | _ :: tr' => bar_values tr'
  end.

Fixpoint highlights (tr : list Game.gui) : list (Z * bool) :=
  match tr with
  | [] => []
  | Game.highlight_current_position p ok :: tr' => (p, ok) :: highlights tr'
  | _ :: tr' => highlights tr'
  end.

Fixpoint dialogs (tr : list Game.gui) : list (bool * pynum * pynum * pynum) :=
  match tr with
  | [] => []
  | Game.QMessageBox_information c a s p :: tr' => (c, a, s, p) :: dialogs tr'
  | _ :: tr' => dialogs tr'
  end.

Fixpoint timer_stops (tr : list Game.gui) : nat :=
  match tr with
  | [] => O
  | Game.game_timer_stop :: tr' => S (timer_stops tr')
  | _ :: tr' => timer_stops tr'
  end.

Fixpoint labels (tr : list Game.gui) : list str :=
  match tr with
  | [] => []
  | Game.timer_display_setText s :: tr' => s :: labels tr'
  | _ :: tr' => labels tr'
  end.

(** What [end_game] logs. *)
Definition end_trace (completed : bool) (g : Game.window) : list Game.gui :=
  [Game.game_timer_stop; Game.typing_input_setEnabled false;
   Game.language_combo_setEnabled true; Game.timer_combo_setEnabled true;
   Game.start_button_setEnabled true;
   Game.QMessageBox_information completed
     (accuracy_value (Game.typing_input g))
     (wpm_value (Game.elapsed_seconds g) (Game.typing_input g))
     (progress_value (Game.typing_input g));
   Game.timer_display_setText (if completed then py "Completed!" else py "Time's Up!")].

(** The window with another typing widget. *)
Definition with_input (g : Game.window) (w : widget) : Game.window :=
  Game.mkWindow w (Game.remaining_seconds g) (Game.elapsed_seconds g) (Game.current_code g).

(** What the connected handler logs for an evaluated keystroke. *)
Definition game_trace_of_keystroke (typed : str) (g : Game.window) : list Game.gui :=
  let w := Game.typing_input g in
  let ok := judged typed w in
  [Game.input (Subscript (_current_position w));
   Game.highlight_current_position (_current_position w) ok;
   Game.scroll_to_position (_current_position w);
   Game.progress_bar_setValue_int (progress_value w)] ++
  (if ok then
     Game.input (insertText typed) ::
     (if len (_target_code w) <=? _current_position w + 1
      then end_trace true (with_input g (after_keystroke typed w))
      else [])
   else []) ++ [Game.input accept].

(** What the connected handler logs for any key event. *)
Definition game_key_trace (event : QKeyEvent) (g : Game.window) : list Game.gui :=
  let w := Game.typing_input g in
  if truthy (_target_code w) then
    match typed_string event with
    | Some typed =>
        if _current_position w <? len (_target_code w)
        then game_trace_of_keystroke typed g
        else [Game.input accept]
    | None => [Game.input (super_keyPressEvent event)]
    end
  else [].

(** The calls the typing widget makes on itself, in a trace of the window
    and in a trace of the widget (where the two signals are left out). *)
Fixpoint widget_calls (tr : list Game.gui) : list effect :=
  match tr with
  | [] => []
  | Game.input e :: tr' => e :: widget_calls tr'
  | _ :: tr' => widget_calls tr'
  end.

Fixpoint own_calls (tr : list effect) : list effect :=
  match tr with
  | [] => []
  | typing_progress _ _ :: tr' => own_calls tr'
  | typing_complete :: tr' => own_calls tr'
  | e :: tr' => e :: own_calls tr'
  end.

(** The window after one tick of the clock. *)
Definition ticked (g : Game.window) : Game.window :=
  Game.mkWindow (Game.typing_input g) (Game.remaining_seconds g - 1)
                (Game.elapsed_seconds g + 1) (Game.current_code g).

(** The label [update_timer_display] writes for [remaining] seconds. *)
Definition time_label (remaining : Z) : str :=
  py "Time: " ++ format_02d (remaining / 60) ++ py ":" ++ format_02d (remaining mod 60).

(** Two characters for a number below 100. *)
Definition two_digits (n : Z) : str := [digit_char (n / 10); digit_char (n mod 10)].


(** Key events delivered one after the other to the connected handler. *)
Fixpoint game_run (events : list QKeyEvent) : Game.G unit :=
  match events with
  | [] => Game.gret tt
  | event :: rest => Game.gbind (Game.keyPressEvent event) (fun _ => game_run rest)
  end.

(** ** start_game: the length band (lines 315-322) *)

(** The characters at which [str.splitlines] ends a line: LF, VT, FF, CR,
    FS, GS, RS, NEL, LINE SEPARATOR and PARAGRAPH SEPARATOR; a CR followed by
    a LF ends one line. *)
Definition is_linebreak (c : char) : bool :=
  match c with
  | 10%N | 11%N | 12%N | 13%N | 28%N | 29%N | 30%N | 133%N | 8232%N | 8233%N => true
  | _ => false
  end.

(** [s.splitlines()]: the lines of [s] without their line ends; a line end
    at the very end of [s] does not open a further, empty line. *)
Fixpoint splitlines (s : str) : list str :=
  match s with
  | [] => []
  | c :: s' =>
      if is_linebreak c then
        [] :: match s' with
              | d :: s'' =>
                  if (c =? 13)%N && (d =? 10)%N then splitlines s'' else splitlines s'
              | [] => []
              end
      else
        match splitlines s' with
        | [] => [[c]]
        | line :: lines => (c :: line) :: lines
        end
  end.

(** [sep.join(parts)]. *)
Fixpoint join (sep : str) (parts : list str) : str :=
  match parts with
  | [] => []
  | [part] => part
  | part :: rest => part ++ sep ++ join sep rest
  end.

(** [len] of a list. *)
Definition len_list {A} (l : list A) : Z := Z.of_nat (List.length l).

(** Lines 315-322 of [start_game]: the generated code is cut to its first
    200 lines when it has more, and replaced by the sample code when it has
    fewer than 175. *)
Definition length_band (generated sample : str) : str :=
  let lines := splitlines generated in
  if 200 <? len_list lines then join newline (firstn 200 lines)
  else if len_list lines <? 175 then sample
  else generated.

(** A line holds no character that ends a line. *)
Definition clean_line (line : str) : bool :=
  forallb (fun c => negb (is_linebreak c)) line.

(** The lines without a final empty line. *)
Fixpoint drop_final_empty (lines : list str) : list str :=
  match lines with
  | [] => []
  | [line] => match line with [] => [] | _ :: _ => [line] end
  | line :: rest => line :: drop_final_empty rest
  end.

(** ** CodeGenerator (src/code_generator.py)

    What lies outside the repository is kept abstract in a record: the
    remote chat completion, which for a prompt either fails (any exception,
    or a missing text) or gives the text of the first choice; Python's
    [str.lower]; and the texts of the five sample programs (lines 98-393),
    on which nothing proved here depends. *)

Record outside := mkOutside {
  chat_completion : str -> option str;
  lower : str -> str;
  py_sample : str;
  cpp_sample : str;
  java_sample : str;
  rust_sample : str;
  javascript_sample : str
}.

(** [d.get(k, default)] on a dictionary with string keys. *)
Fixpoint dict_get (d : list (str * str)) (k default : str) : str :=
  match d with
  | [] => default
  | (k', v) :: d' => if str_eqb k k' then v else dict_get d' k default
  end.

(** [s.startswith(p)]. *)
Fixpoint starts_with (p s : str) : bool :=
  match p, s with
  | [], _ => true
  | a :: p', b :: s' => N.eqb a b && starts_with p' s'
  | _ :: _, [] => false
  end.

(** [sub in s]. *)
Fixpoint contains (sub s : str) : bool :=
  starts_with sub s ||
  match s with
  | [] => false
  | _ :: s' => contains sub s'
  end.

(** [s.split(sep)] for a separator that is not empty: [s] is cut at the
    occurrences of [sep] found from left to right without overlap.  [skip]
    counts the characters of a separator just found that are still to be
    passed over. *)
Fixpoint split_from (sep : str) (skip : nat) (s : str) : list str :=
  match s with
  | [] => [[]]
  | c :: s' =>
      match skip with
      | S k => split_from sep k s'
      | O =>
          if starts_with sep s then [] :: split_from sep (List.length sep - 1) s'
          else match split_from sep 0 s' with
               | [] => [[c]]
               | part :: parts => (c :: part) :: parts
               end
      end
  end.

Definition split (sep s : str) : list str := split_from sep 0 s.

(** [s.split(sep, 1)]: cut at the first occurrence only. *)
Fixpoint split_once (sep s : str) : list str :=
  match s with
  | [] => [[]]
  | c :: s' =>
      if starts_with sep s then [[]; skipn (List.length sep) s]
      else match split_once sep s' with
           | part :: parts => (c :: part) :: parts
           | [] => [[c]]
           end
  end.

(** [parts[i]] on a list, for an index that is not negative. *)
Definition item (parts : list str) (i : nat) : result str :=
  match nth_error parts i with
  | Some part => Ok part
  | None => Raise IndexError
  end.

Definition fence : str := py "```".

Definition language_map : list (str * str) :=
  [(py "py", py "Python"); (py "cpp", py "C++"); (py "java", py "Java");
   (py "rust", py "Rust"); (py "javascript", py "JavaScript")].

(** Lines 87-404. *)
Definition _get_sample_code (o : outside) (language : str) : str :=
  let samples :=
    [(py "py", py_sample o); (py "cpp", cpp_sample o); (py "java", java_sample o);
     (py "rust", rust_sample o); (py "javascript", javascript_sample o)] in
  dict_get samples language (dict_get samples (py "py") []).

(** The loop of lines 71-76: the first block that names the language, cut
    after its first line. *)
Fixpoint first_matching_block (o : outside) (language full_language : str)
         (code_blocks : list str) : option str :=
  match code_blocks with
  | [] => None
  | block :: rest =>
      if contains language block || contains (lower o full_language) (lower o block)
      then let lines := split newline block in
           Some (join newline (tl lines))
      else first_matching_block o language full_language rest
  end.

(** The prompt of line 52. *)
Definition prompt (full_language : str) : str :=
  py "Write a " ++ full_language ++
  py " program that demonstrates a useful algorithm or data structure. The code should be well-commented, educational, and between 175-200 lines long. Do not include any explanations outside the code.".

(** Lines 40-81, inside the [try]: a raised exception is [None]. *)
Definition generate_code_try (o : outside) (language : str) : option str :=
  let full_language := dict_get language_map language language in
  match chat_completion o (prompt full_language) with
  | None => None
  | Some generated_code =>
      if contains fence generated_code then
        let code_blocks := split fence generated_code in
        match first_matching_block o language full_language code_blocks with
        | Some code => Some code
        | None =>
            match item (split fence generated_code) 1 with
            | Raise _ => None
            | Ok block =>
                match item (split_once newline block) 1 with
                | Raise _ => None
                | Ok code => Some code
                end
            end
        end
      else Some generated_code
  end.

(** Lines 26-85. *)
Definition generate_code (o : outside) (is_api_available : bool) (language : str) : str :=
  if negb is_api_available then _get_sample_code o language
  else match generate_code_try o language with
       | Some code => code
       | None => _get_sample_code o language
       end.


(** [s] does not hold the character [c]. *)
Definition lacks (c : char) (s : str) : bool :=
  forallb (fun x => negb (N.eqb x c)) s.

Definition backtick : char := 96%N.


(** * Properties *)

Lemma str_eqb_refl (s : str) : str_eqb s s = true.
Proof.
  induction s as [|a s IH]; simpl; [reflexivity|].
  now rewrite N.eqb_refl, IH.
Qed.

Lemma str_eqb_sym (s t : str) : str_eqb s t = str_eqb t s.
Proof.
  revert t; induction s as [|a s IH]; intros [|b t]; simpl; try reflexivity.
  now rewrite N.eqb_sym, IH.
Qed.

Lemma str_eqb_single (a b : char) : str_eqb [a] [b] = N.eqb a b.
Proof. simpl. now rewrite andb_true_r. Qed.

Lemma truthy_len (s : str) : truthy s = true <-> 0 < len s.
Proof.
  unfold len; destruct s; simpl; split; intros; try lia; try discriminate; reflexivity.
Qed.

Arguments str_eqb : simpl never.

Ltac fields := cbn [_target_code _current_position _error_count _total_keystrokes] in *.

(** Reading the expected character inside the target succeeds. *)
Lemma subscript_in_range (s : str) (i : Z) (w : widget) :
  0 <= i < len s ->
  subscript s i w = Ok ([nth (Z.to_nat i) s 0%N], w, [Subscript i]).
Proof.
  intros [Hlo Hhi]. unfold subscript.
  assert (H0 : (i <? 0) = false) by (apply Z.ltb_ge; lia).
  assert (H1 : (len s <=? i) = false) by (apply Z.leb_gt; lia).
  rewrite H0, H0, H1. reflexivity.
Qed.

(** An event whose position is inside the target is evaluated. *)
Lemma keyPressEvent_evaluated (event : QKeyEvent) (typed : str) (w : widget) :
  typed_string event = Some typed ->
  0 <= _current_position w < len (_target_code w) ->
  keyPressEvent event w = Ok (tt, after_keystroke typed w, trace_of_keystroke typed w).
Proof.
  intros Hty Hpos.
  assert (Htr : truthy (_target_code w) = true) by (apply truthy_len; lia).
  assert (Hlt : (_current_position w <? len (_target_code w)) = true)
    by (apply Z.ltb_lt; lia).
  pose proof (subscript_in_range (_target_code w) (_current_position w) w Hpos) as Hsub.
  destruct w as [tc pos err tot]; fields.
  unfold typed_string in Hty.
  unfold after_keystroke, trace_of_keystroke, judged, expectedChar; fields.
  unfold keyPressEvent, bind at 1, self; fields.
  rewrite Htr; cbn [negb].
  destruct ((key event =? Key_Return) || (key event =? Key_Enter)).
  - injection Hty as <-.
    unfold bind, self; fields. rewrite Hlt, Hsub.
    rewrite (str_eqb_sym newline).
    destruct (str_eqb [nth (Z.to_nat pos) tc 0%N] newline); simpl; [|reflexivity].
    destruct (len tc <=? pos + 1); reflexivity.
  - destruct (truthy (text event) &&
              negb (flags (Z.land (modifiers event) (Z.lor ControlModifier AltModifier))));
      [|discriminate].
    injection Hty as <-.
    unfold bind, self; fields. rewrite Hlt, Hsub.
    destruct (str_eqb (text event) [nth (Z.to_nat pos) tc 0%N]); simpl; [|reflexivity].
    destruct (len tc <=? pos + 1); reflexivity.
Qed.

(** With no target set the handler returns at once. *)
Lemma keyPressEvent_idle (event : QKeyEvent) (w : widget) :
  truthy (_target_code w) = false ->
  keyPressEvent event w = Ok (tt, w, []).
Proof.
  intros Htr. unfold keyPressEvent, bind at 1, self.
  rewrite Htr. reflexivity.
Qed.

(** An event that is not evaluated goes to the base class. *)
Lemma keyPressEvent_passed (event : QKeyEvent) (w : widget) :
  truthy (_target_code w) = true ->
  typed_string event = None ->
  keyPressEvent event w = Ok (tt, w, [super_keyPressEvent event]).
Proof.
  intros Htr Hty. unfold typed_string in Hty.
  unfold keyPressEvent, bind at 1, self.
  rewrite Htr; cbn [negb].
  destruct ((key event =? Key_Return) || (key event =? Key_Enter)); [discriminate|].
  destruct (truthy (text event) &&
            negb (flags (Z.land (modifiers event) (Z.lor ControlModifier AltModifier))));
    [discriminate|].
  reflexivity.
Qed.

(** At or past the end of the target an evaluable event is only consumed. *)
Lemma keyPressEvent_at_end (event : QKeyEvent) (typed : str) (w : widget) :
  truthy (_target_code w) = true ->
  typed_string event = Some typed ->
  len (_target_code w) <= _current_position w ->
  keyPressEvent event w = Ok (tt, w, [accept]).
Proof.
  intros Htr Hty Hge. unfold typed_string in Hty.
  assert (Hlt : (_current_position w <? len (_target_code w)) = false)
    by (apply Z.ltb_ge; lia).
  unfold keyPressEvent, bind at 1, self.
  rewrite Htr; cbn [negb].
  destruct ((key event =? Key_Return) || (key event =? Key_Enter)).
  - unfold bind, self. rewrite Hlt. reflexivity.
  - destruct (truthy (text event) &&
              negb (flags (Z.land (modifiers event) (Z.lor ControlModifier AltModifier))));
      [|discriminate].
    unfold bind, self. rewrite Hlt. reflexivity.
Qed.

Lemma keyPressEvent_step (event : QKeyEvent) (w : widget) :
  0 <= _current_position w ->
  keyPressEvent event w = Ok (tt, fst (key_step event w), snd (key_step event w)).
Proof.
  intros Hpos. unfold key_step.
  destruct (truthy (_target_code w)) eqn:Htr.
  - destruct (typed_string event) as [typed|] eqn:Hty.
    + destruct (_current_position w <? len (_target_code w)) eqn:Hlt.
      * apply Z.ltb_lt in Hlt. now apply keyPressEvent_evaluated.
      * apply Z.ltb_ge in Hlt. now apply keyPressEvent_at_end with typed.
    + now apply keyPressEvent_passed.
  - now apply keyPressEvent_idle.
Qed.

(** What one key event does to the attributes and the trace. *)
Lemma key_step_facts (event : QKeyEvent) (w : widget) :
  invariant w ->
  let w' := fst (key_step event w) in
  let tr := snd (key_step event w) in
  invariant w' /\
  _target_code w' = _target_code w /\
  _current_position w <= _current_position w' <= _current_position w + 1 /\
  _error_count w <= _error_count w' /\
  _total_keystrokes w <= _total_keystrokes w' /\
  Forall (fun i => 0 <= i < len (_target_code w)) (reads tr) /\
  (completions tr <= 1)%nat /\
  (completions tr = 1%nat <->
   In (typing_progress (_current_position w) true) tr /\
   _current_position w' = _current_position w + 1 /\
   _current_position w' = len (_target_code w)) /\
  (_current_position w = len (_target_code w) -> w' = w /\ signals tr = []).
Proof.
  intros [Hp He]. unfold key_step.
  destruct (truthy (_target_code w)) eqn:Htr.
  2:{ simpl. repeat split; try lia; try constructor; try assumption;
        try (intros H; discriminate H). }
  destruct (typed_string event) as [typed|].
  2:{ simpl. repeat split; try lia; try constructor; try assumption;
        try (intros H; discriminate H). }
  destruct (_current_position w <? len (_target_code w)) eqn:Hlt.
  2:{ simpl. repeat split; try lia; try constructor; try assumption;
        try (intros H; discriminate H). }
  apply Z.ltb_lt in Hlt.
  unfold after_keystroke, trace_of_keystroke, invariant.
  destruct (judged typed w); fields; cbn [fst snd].
  - destruct (len (_target_code w) <=? _current_position w + 1) eqn:Hend.
    + apply Z.leb_le in Hend. simpl.
      repeat split; try lia; try (constructor; [lia|constructor]).
      right; left; reflexivity.
    + apply Z.leb_gt in Hend. simpl.
      repeat split; try lia; try (constructor; [lia|constructor]);
        try (intros H; discriminate H).
  - simpl. repeat split; try lia; try (constructor; [lia|constructor]);
      try (intros H; discriminate H).
Qed.

Lemma reads_app (a b : list effect) : reads (a ++ b) = reads a ++ reads b.
Proof.
  induction a as [|x a IH]; [reflexivity|].
  destruct x; simpl; now rewrite IH.
Qed.

Lemma completions_app (a b : list effect) :
  completions (a ++ b) = (completions a + completions b)%nat.
Proof.
  induction a as [|x a IH]; [reflexivity|].
  destruct x; simpl; now rewrite IH.
Qed.

Lemma signals_app (a b : list effect) : signals (a ++ b) = signals a ++ signals b.
Proof.
  induction a as [|x a IH]; [reflexivity|].
  destruct x; simpl; now rewrite IH.
Qed.

Lemma outcomes_app (a b : list effect) : outcomes (a ++ b) = outcomes a ++ outcomes b.
Proof.
  induction a as [|x a IH]; [reflexivity|].
  destruct x; simpl; now rewrite IH.
Qed.

Lemma no_signals_no_completions (tr : list effect) :
  signals tr = [] -> completions tr = 0%nat.
Proof.
  induction tr as [|x tr IH]; [reflexivity|].
  destruct x; simpl; intros H; try discriminate H; auto.
Qed.

Lemma no_signals_no_outcomes (tr : list effect) :
  signals tr = [] -> outcomes tr = [].
Proof.
  induction tr as [|x tr IH]; [reflexivity|].
  destruct x; simpl; intros H; try discriminate H; auto.
Qed.

Lemma len_nonneg (s : str) : 0 <= len s.
Proof. unfold len. lia. Qed.

(** [set_target_code] in closed form. *)
Lemma set_target_code_eq (code : str) (w : widget) :
  set_target_code code w = Ok (tt, mkWidget code 0 0 0, [clear]).
Proof. reflexivity. Qed.

Lemma invariant_fresh (code : str) : invariant (mkWidget code 0 0 0).
Proof. unfold invariant; simpl. pose proof (len_nonneg code). lia. Qed.

Lemma run_cons (event : QKeyEvent) (rest : list QKeyEvent) (w w1 w2 : widget)
      (t1 t2 : list effect) :
  keyPressEvent event w = Ok (tt, w1, t1) ->
  run rest w1 = Ok (tt, w2, t2) ->
  run (event :: rest) w = Ok (tt, w2, t1 ++ t2).
Proof.
  intros H1 H2. cbn [run]. unfold bind. now rewrite H1, H2.
Qed.

Lemma run_app (evs1 evs2 : list QKeyEvent) (w w1 w2 : widget) (t1 t2 : list effect) :
  run evs1 w = Ok (tt, w1, t1) ->
  run evs2 w1 = Ok (tt, w2, t2) ->
  run (evs1 ++ evs2) w = Ok (tt, w2, t1 ++ t2).
Proof.
  revert w t1. induction evs1 as [|e evs1 IH]; intros w t1 H1 H2.
  - cbn in H1. injection H1 as <- <-. exact H2.
  - cbn [run app] in *. unfold bind in *.
    destruct (keyPressEvent e w) as [[[[] wa] ta]|]; [|discriminate].
    destruct (run evs1 wa) as [[[[] wb] tb]|] eqn:Hr; [|discriminate].
    injection H1 as <- <-.
    rewrite (IH wa tb Hr H2). now rewrite app_assoc.
Qed.

(** A run of key events from a state that meets the invariant: it does not
    raise, and the facts of one step carry over. *)
Lemma run_facts (events : list QKeyEvent) (w : widget) :
  invariant w ->
  exists w' tr,
    run events w = Ok (tt, w', tr) /\
    invariant w' /\
    _target_code w' = _target_code w /\
    _current_position w <= _current_position w' /\
    _error_count w <= _error_count w' /\
    _total_keystrokes w <= _total_keystrokes w' /\
    Forall (fun i => 0 <= i < len (_target_code w)) (reads tr) /\
    (completions tr <= 1)%nat /\
    (_current_position w = len (_target_code w) -> w' = w /\ signals tr = []).
Proof.
  revert w. induction events as [|e rest IH]; intros w Hinv.
  - exists w, []. simpl. repeat split; try lia; try apply Hinv; constructor.
  - pose proof (key_step_facts e w Hinv) as Hs. cbv zeta in Hs.
    destruct Hs as (Hinv1 & Htc & Hpos & Herr & Htot & Hrd & Hc1 & Hciff & Hend).
    destruct (IH _ Hinv1) as (w2 & t2 & Hrun & Hinv2 & Htc2 & Hpos2 & Herr2 & Htot2
                              & Hrd2 & Hc2 & Hend2).
    exists w2, (snd (key_step e w) ++ t2).
    split.
    { apply run_cons with (fst (key_step e w)); [|exact Hrun].
      apply keyPressEvent_step. apply Hinv. }
    rewrite Htc in *.
    repeat split; try lia; try apply Hinv2; try congruence.
    + rewrite reads_app. apply Forall_app. split; assumption.
    + rewrite completions_app.
      destruct (completions (snd (key_step e w))) as [|[|n]] eqn:Hn; [lia| |lia].
      destruct Hciff as [Hciff _]. destruct (Hciff eq_refl) as (_ & _ & Hat).
      destruct (Hend2 Hat) as [_ Hsig].
      rewrite (no_signals_no_completions _ Hsig). lia.
    + destruct (Hend H) as [Hw _]. rewrite Hw in Hend2.
      destruct (Hend2 H) as [Hw2 _]. congruence.
    + destruct (Hend H) as [Hw Hsig]. rewrite Hw in Hend2.
      destruct (Hend2 H) as [_ Hsig2].
      rewrite signals_app, Hsig, Hsig2. reflexivity.
Qed.

(** A session in closed form: the document is cleared, the counters are
    reset, and the events run on the fresh state. *)
Lemma session_eq (code : str) (events : list QKeyEvent) (w0 w : widget)
      (tr : list effect) :
  run events (mkWidget code 0 0 0) = Ok (tt, w, tr) ->
  session code events w0 = Ok (tt, w, clear :: tr).
Proof.
  intros H. unfold session, bind. rewrite set_target_code_eq, H. reflexivity.
Qed.

(** *** The metric getters in closed form *)

Lemma Qeq_bool_inject_Z (z : Z) : Qeq_bool (inject_Z z) 0 = (z =? 0).
Proof. unfold Qeq_bool, inject_Z; simpl. now rewrite Z.mul_1_r. Qed.

Lemma Qeq_bool_minutes (z : Z) : Qeq_bool (inject_Z z / 60) 0 = (z =? 0).
Proof. unfold Qeq_bool, inject_Z, Qdiv, Qmult; simpl. now rewrite !Z.mul_1_r. Qed.

Lemma get_progress_percentage_eq (w : widget) :
  get_progress_percentage w =
  Ok (if truthy (_target_code w)
      then PyFloat (inject_Z (_current_position w) / inject_Z (len (_target_code w)) * 100)
      else PyInt 0, w, []).
Proof.
  unfold get_progress_percentage, bind at 1, self.
  destruct (truthy (_target_code w)) eqn:Htr; [|reflexivity].
  cbn [negb]. unfold bind, self, truediv.
  rewrite Qeq_bool_inject_Z.
  apply truthy_len in Htr.
  replace (len (_target_code w) =? 0) with false by (symmetry; apply Z.eqb_neq; lia).
  reflexivity.
Qed.

Lemma get_accuracy_eq (w : widget) :
  get_accuracy w =
  Ok (if _total_keystrokes w =? 0
      then PyFloat 100
      else PyFloat (100 - inject_Z (_error_count w) / inject_Z (_total_keystrokes w) * 100),
      w, []).
Proof.
  unfold get_accuracy, bind at 1, self.
  destruct (_total_keystrokes w =? 0) eqn:Htot; [reflexivity|].
  unfold bind, self, truediv.
  rewrite Qeq_bool_inject_Z, Htot. reflexivity.
Qed.

Lemma get_wpm_eq (elapsed_seconds : Z) (w : widget) :
  get_wpm elapsed_seconds w =
  Ok (if elapsed_seconds =? 0
      then PyInt 0
      else PyFloat ((inject_Z (_current_position w) / 5) / (inject_Z elapsed_seconds / 60)),
      w, []).
Proof.
  unfold get_wpm.
  destruct (elapsed_seconds =? 0) eqn:He; [reflexivity|].
  unfold bind, self, truediv.
  change (Qeq_bool 5 0) with false. change (Qeq_bool 60 0) with false.
  unfold ret. cbv beta iota.
  rewrite Qeq_bool_minutes, He. reflexivity.
Qed.

(** Any call leaves a state that meets the invariant in such a state. *)
Lemma perform_facts (c : call) (w : widget) :
  invariant w ->
  exists w' tr, perform c w = Ok (tt, w', tr) /\ invariant w'.
Proof.
  intros Hinv. destruct c as [code|event| | |elapsed]; cbn [perform].
  - exists (mkWidget code 0 0 0), [clear]. split; [reflexivity|apply invariant_fresh].
  - exists (fst (key_step event w)), (snd (key_step event w)). split.
    + apply keyPressEvent_step. apply Hinv.
    + now apply key_step_facts.
  - exists w, []. unfold bind. rewrite get_progress_percentage_eq. now split.
  - exists w, []. unfold bind. rewrite get_accuracy_eq. now split.
  - exists w, []. unfold bind. rewrite get_wpm_eq. now split.
Qed.

Lemma exec_facts (calls : list call) (w : widget) :
  invariant w ->
  exists w' tr, exec calls w = Ok (tt, w', tr) /\ invariant w'.
Proof.
  revert w. induction calls as [|c rest IH]; intros w Hinv.
  - exists w, []. now split.
  - destruct (perform_facts c w Hinv) as (w1 & t1 & H1 & Hinv1).
    destruct (IH w1 Hinv1) as (w2 & t2 & H2 & Hinv2).
    exists w2, (t1 ++ t2). split; [|assumption].
    cbn [exec]. unfold bind. now rewrite H1, H2.
Qed.

Lemma invariant_init : invariant init.
Proof. apply invariant_fresh. Qed.

Lemma completions_In (tr : list effect) :
  In typing_complete tr <-> (0 < completions tr)%nat.
Proof.
  induction tr as [|x tr IH]; simpl.
  - split; [intros []|lia].
  - destruct x; simpl; rewrite <- ?IH;
      try (split; [intros [H|H]; [discriminate H|exact H] | intros H; right; exact H]).
    split; [lia|intros _; left; reflexivity].
Qed.

(** The logical character of an event is the string it is judged by. *)
Lemma logical_char_typed (event : QKeyEvent) (c : char) :
  logical_char event = Some c -> typed_string event = Some [c].
Proof.
  unfold logical_char, typed_string.
  destruct ((key event =? Key_Return) || (key event =? Key_Enter)).
  - intros H; injection H as <-. reflexivity.
  - destruct (text event) as [|a [|b s]]; try discriminate.
    destruct (flags (Z.land (modifiers event) (Z.lor ControlModifier AltModifier)));
      [discriminate|].
    intros H; injection H as <-. reflexivity.
Qed.

Lemma outcomes_keystroke (typed : str) (w : widget) :
  outcomes (trace_of_keystroke typed w) = [(_current_position w, judged typed w)].
Proof.
  unfold trace_of_keystroke.
  destruct (judged typed w); [|reflexivity].
  destruct (len (_target_code w) <=? _current_position w + 1); reflexivity.
Qed.

(** ** The claims *)

(** C1. In the InProgress state ([0 <= position < length(target)]) an event
    carrying the logical character [c] is evaluated: the target is kept,
    [totalKeystrokes] grows by exactly 1, exactly one outcome
    [(position_before, isCorrect)] is emitted with
    [isCorrect = (c == target[position_before])], [errorCount] grows by 1
    exactly when [isCorrect] is false and [position] advances by 1 exactly
    when it is true.  The state after the event is given in full, so no
    other update is possible. *)
Theorem keystroke_in_progress (w : widget) (event : QKeyEvent) (c : char) :
  0 <= _current_position w < len (_target_code w) ->
  logical_char event = Some c ->
  let isCorrect := N.eqb c (expectedChar w (_current_position w)) in
  exists tr,
    keyPressEvent event w =
      Ok (tt,
          mkWidget (_target_code w)
                   (if isCorrect then _current_position w + 1 else _current_position w)
                   (if isCorrect then _error_count w else _error_count w + 1)
                   (_total_keystrokes w + 1),
          tr) /\
    outcomes tr = [(_current_position w, isCorrect)].
Proof.
  intros Hpos Hc isCorrect.
  exists (trace_of_keystroke [c] w).
  rewrite (keyPressEvent_evaluated event [c] w (logical_char_typed _ _ Hc) Hpos).
  rewrite outcomes_keystroke.
  unfold after_keystroke, judged. rewrite str_eqb_single.
  split; reflexivity.
Qed.

Lemma keystroke_in_progress_witness :
  exists tr,
    keyPressEvent (press "x") (mkWidget (py "ab") 1 0 1) =
      Ok (tt, mkWidget (py "ab") 1 1 2, tr) /\
    outcomes tr = [(1, false)].
Proof.
  apply (keystroke_in_progress (mkWidget (py "ab") 1 0 1) (press "x") 120%N).
  - unfold len; simpl; lia.
  - reflexivity.
Defined.

(** With no target, or at the end of the target, an event changes nothing
    and emits no signal. *)
Lemma keyPressEvent_ignored (w : widget) (event : QKeyEvent) :
  _target_code w = [] \/ _current_position w = len (_target_code w) ->
  exists tr,
    keyPressEvent event w = Ok (tt, w, tr) /\
    signals tr = [] /\ outcomes tr = [] /\ completions tr = 0%nat.
Proof.
  intros Hst.
  destruct (truthy (_target_code w)) eqn:Htr.
  - destruct Hst as [Hnil|Hend]; [rewrite Hnil in Htr; discriminate|].
    destruct (typed_string event) as [typed|] eqn:Hty.
    + exists [accept]. split; [|now repeat split].
      apply keyPressEvent_at_end with typed; try assumption. lia.
    + exists [super_keyPressEvent event]. split; [|now repeat split].
      now apply keyPressEvent_passed.
  - exists []. split; [|now repeat split].
    now apply keyPressEvent_idle.
Qed.

(** C5. In the Idle state (no target set) and in the Complete state
    ([position == length(target)]) every input event is ignored: the four
    attributes are unchanged and neither a progress outcome nor a completion
    event is emitted. *)
Theorem ignored_when_idle_or_complete (w : widget) (event : QKeyEvent) :
  _target_code w = [] \/ _current_position w = len (_target_code w) ->
  exists tr,
    keyPressEvent event w = Ok (tt, w, tr) /\
    signals tr = [] /\ outcomes tr = [] /\ completions tr = 0%nat.
Proof. apply keyPressEvent_ignored. Qed.

Lemma ignored_when_idle_or_complete_witness :
  exists tr,
    keyPressEvent (press "b") (mkWidget (py "ab") 2 1 3) =
      Ok (tt, mkWidget (py "ab") 2 1 3, tr) /\
    signals tr = [] /\ outcomes tr = [] /\ completions tr = 0%nat.
Proof.
  apply (ignored_when_idle_or_complete (mkWidget (py "ab") 2 1 3) (press "b")).
  right. reflexivity.
Defined.

(** C6. Whatever the attributes were, [set_target_code code] installs
    [code] as the target and leaves position, error count and keystroke count
    at exactly 0; the state it leaves does not depend on the state it found. *)
Theorem set_target_code_resets (code : str) (w w' : widget) :
  set_target_code code w = Ok (tt, mkWidget code 0 0 0, [clear]) /\
  set_target_code code w = set_target_code code w'.
Proof. repeat split. Qed.

(** C7. [get_wpm elapsed_seconds] is exactly [0] when [elapsed_seconds] is
    0, and otherwise the number [(position / 5) / (elapsed_seconds / 60)]; it
    never raises, it leaves the widget as it was and emits nothing, and its
    value is the same for any two widgets with the same position, whatever
    their keystroke and error counts. *)
Theorem get_wpm_value (w : widget) (elapsed_seconds : Z) :
  get_wpm elapsed_seconds w =
    Ok (if elapsed_seconds =? 0
        then PyInt 0
        else PyFloat ((inject_Z (_current_position w) / 5) /
                      (inject_Z elapsed_seconds / 60)),
        w, []) /\
  forall target errors total,
    let w' := mkWidget target (_current_position w) errors total in
    exists v, get_wpm elapsed_seconds w = Ok (v, w, []) /\
              get_wpm elapsed_seconds w' = Ok (v, w', []).
Proof.
  split; [apply get_wpm_eq|].
  intros target errors total w'.
  eexists. rewrite !get_wpm_eq. split; reflexivity.
Qed.

Lemma bind_ext {A B} (m : M A) (f g : A -> M B) (w : widget) :
  (forall a w1, f a w1 = g a w1) -> bind m f w = bind m g w.
Proof.
  intros H. unfold bind. destruct (m w) as [[[a w1] t1]|]; [|reflexivity].
  now rewrite H.
Qed.

Lemma bind_cong_l {A B} (m m' : M A) (f : A -> M B) (w : widget) :
  m w = m' w -> bind m f w = bind m' f w.
Proof. intros H. unfold bind. now rewrite H. Qed.

(** The Enter branch and the character branch of the handler agree on a
    newline, in every state of the widget. *)
Lemma enter_branch_eq (w : widget) (enter plain : QKeyEvent) :
  (key enter =? Key_Return) || (key enter =? Key_Enter) = true ->
  (key plain =? Key_Return) || (key plain =? Key_Enter) = false ->
  text plain = newline ->
  flags (Z.land (modifiers plain) (Z.lor ControlModifier AltModifier)) = false ->
  keyPressEvent enter w = keyPressEvent plain w.
Proof.
  intros He Hp Htext Hmods.
  unfold keyPressEvent. rewrite He, Hp, Htext, Hmods.
  change (truthy newline && negb false) with true. cbv iota.
  apply bind_ext; intros target_code w1.
  destruct (negb (truthy target_code)); [reflexivity|].
  apply bind_ext; intros pos w2.
  apply bind_ext; intros target_code' w3.
  apply bind_cong_l.
  destruct (pos <? len target_code'); [|reflexivity].
  apply bind_ext; intros expected_char w4.
  rewrite (str_eqb_sym newline expected_char). reflexivity.
Qed.

Lemma signals_keystroke (typed : str) (w : widget) :
  _current_position w < len (_target_code w) ->
  signals (trace_of_keystroke typed w) =
  Outcome (_current_position w) (judged typed w) ::
  (if judged typed w && (_current_position w + 1 =? len (_target_code w))
   then [Completion] else []).
Proof.
  intros Hlt. unfold trace_of_keystroke.
  destruct (judged typed w); [|reflexivity].
  destruct (len (_target_code w) <=? _current_position w + 1) eqn:Hle.
  - apply Z.leb_le in Hle.
    replace (_current_position w + 1 =? len (_target_code w)) with true
      by (symmetry; apply Z.eqb_eq; lia).
    reflexivity.
  - apply Z.leb_gt in Hle.
    replace (_current_position w + 1 =? len (_target_code w)) with false
      by (symmetry; apply Z.eqb_neq; lia).
    reflexivity.
Qed.

(** The handler on an Enter event refines the transition rule on the
    newline. *)
Lemma enter_refines_transition (w : widget) (enter : QKeyEvent) :
  (key enter =? Key_Return) || (key enter =? Key_Enter) = true ->
  0 <= _current_position w <= len (_target_code w) ->
  exists tr,
    keyPressEvent enter w = Ok (tt, fst (spec_transition 10%N w), tr) /\
    signals tr = snd (spec_transition 10%N w).
Proof.
  intros He Hwf.
  assert (Hty : typed_string enter = Some newline)
    by (unfold typed_string; now rewrite He).
  unfold spec_transition.
  destruct (truthy (_target_code w)) eqn:Htr.
  - destruct (_current_position w =? len (_target_code w)) eqn:Hend.
    + apply Z.eqb_eq in Hend. cbn [andb negb fst snd].
      exists [accept]. split; [|reflexivity].
      apply keyPressEvent_at_end with newline; try assumption. lia.
    + apply Z.eqb_neq in Hend.
      assert (Hpos : 0 <= _current_position w < len (_target_code w)) by lia.
      cbn [andb negb fst snd].
      exists (trace_of_keystroke newline w).
      rewrite (keyPressEvent_evaluated enter newline w Hty Hpos).
      rewrite signals_keystroke by lia.
      unfold after_keystroke, judged, newline. rewrite str_eqb_single.
      destruct (N.eqb 10 (expectedChar w (_current_position w))); split; reflexivity.
  - exists []. split; [|reflexivity]. now apply keyPressEvent_idle.
Qed.

(** C2. Pressing Enter or Return does exactly what the general rule does
    on the logical character newline.  For an Enter event [enter] and a
    printable-character event [plain] whose text is the newline: the logical
    character of [enter] is the newline; the handler gives the same result on
    both events in every state (same attributes, same trace, same exception),
    so the special-cased branch agrees with the character branch; and in
    every state with [0 <= position <= length(target)] the handler on [enter]
    leaves the state and emits the signals of the specification's transition
    rule [spec_transition] applied to the newline. *)
Theorem enter_is_newline (w : widget) (enter plain : QKeyEvent) :
  key enter = Key_Return \/ key enter = Key_Enter ->
  key plain <> Key_Return ->
  key plain <> Key_Enter ->
  text plain = newline ->
  Z.land (modifiers plain) (Z.lor ControlModifier AltModifier) = 0 ->
  logical_char enter = Some 10%N /\
  logical_char plain = Some 10%N /\
  keyPressEvent enter w = keyPressEvent plain w /\
  (0 <= _current_position w <= len (_target_code w) ->
   exists tr,
     keyPressEvent enter w = Ok (tt, fst (spec_transition 10%N w), tr) /\
     signals tr = snd (spec_transition 10%N w)).
Proof.
  intros Henter Hp1 Hp2 Htext Hmods.
  assert (He : (key enter =? Key_Return) || (key enter =? Key_Enter) = true).
  { apply orb_true_iff. destruct Henter as [H|H]; [left|right]; now apply Z.eqb_eq. }
  assert (Hp : (key plain =? Key_Return) || (key plain =? Key_Enter) = false).
  { apply orb_false_iff. split; now apply Z.eqb_neq. }
  assert (Hf : flags (Z.land (modifiers plain) (Z.lor ControlModifier AltModifier)) = false)
    by (unfold flags; now rewrite Hmods).
  repeat split.
  - unfold logical_char. now rewrite He.
  - unfold logical_char. now rewrite Hp, Htext, Hf.
  - now apply enter_branch_eq.
  - now apply enter_refines_transition.
Qed.

Lemma enter_is_newline_witness :
  logical_char press_return = Some 10%N /\
  logical_char (mkEvent 0 newline ShiftModifier) = Some 10%N /\
  keyPressEvent press_return (mkWidget [97; 10; 98]%N 1 0 1) =
    keyPressEvent (mkEvent 0 newline ShiftModifier) (mkWidget [97; 10; 98]%N 1 0 1) /\
  (0 <= 1 <= len [97; 10; 98]%N ->
   exists tr,
     keyPressEvent press_return (mkWidget [97; 10; 98]%N 1 0 1) =
       Ok (tt, fst (spec_transition 10%N (mkWidget [97; 10; 98]%N 1 0 1)), tr) /\
     signals tr = snd (spec_transition 10%N (mkWidget [97; 10; 98]%N 1 0 1))).
Proof.
  apply (enter_is_newline (mkWidget [97; 10; 98]%N 1 0 1) press_return
                          (mkEvent 0 newline ShiftModifier)).
  - left; reflexivity.
  - discriminate.
  - discriminate.
  - reflexivity.
  - reflexivity.
Defined.

(** The newline scenario: with target ["a\nb"] and position 1, Enter is
    judged correct and moves the position to 2, a letter is rejected. *)
Example newline_scenario :
  keyPressEvent press_return (mkWidget [97; 10; 98]%N 1 0 1) =
    Ok (tt, mkWidget [97; 10; 98]%N 2 0 2,
        [Subscript 1; typing_progress 1 true; insertText newline; accept]) /\
  keyPressEvent press_enter (mkWidget [97; 10; 98]%N 1 0 1) =
    Ok (tt, mkWidget [97; 10; 98]%N 2 0 2,
        [Subscript 1; typing_progress 1 true; insertText newline; accept]) /\
  keyPressEvent (press "b") (mkWidget [97; 10; 98]%N 1 0 1) =
    Ok (tt, mkWidget [97; 10; 98]%N 1 1 2,
        [Subscript 1; typing_progress 1 false; accept]).
Proof. repeat split. Qed.

(** C3. A completion event is emitted exactly when a correct keystroke
    advances the position to [length(target)]; the state is then Complete
    and every later event is ignored.  On target ["ab"] the inputs ['a'],
    ['x'], ['b'] give the outcomes [(0, true)], [(1, false)], [(1, true)],
    position 2, error count 1, keystroke count 3, and the completion signal
    is emitted by the last keystroke. *)
Theorem completion_signal :
  (forall (w : widget) (event : QKeyEvent),
     invariant w ->
     exists w' tr,
       keyPressEvent event w = Ok (tt, w', tr) /\
       (In typing_complete tr <->
        In (typing_progress (_current_position w) true) tr /\
        _current_position w' = _current_position w + 1 /\
        _current_position w' = len (_target_code w')) /\
       (In typing_complete tr ->
        completions tr = 1%nat /\
        forall event' : QKeyEvent,
          exists tr', keyPressEvent event' w' = Ok (tt, w', tr') /\ signals tr' = [])) /\
  session (py "ab") [press "a"; press "x"] init =
    Ok (tt, mkWidget (py "ab") 1 1 2,
        [clear; Subscript 0; typing_progress 0 true; insertText (py "a"); accept;
         Subscript 1; typing_progress 1 false; accept]) /\
  keyPressEvent (press "b") (mkWidget (py "ab") 1 1 2) =
    Ok (tt, mkWidget (py "ab") 2 1 3,
        [Subscript 1; typing_progress 1 true; insertText (py "b");
         typing_complete; accept]) /\
  (exists tr,
     session (py "ab") [press "a"; press "x"; press "b"] init =
       Ok (tt, mkWidget (py "ab") 2 1 3, tr) /\
     outcomes tr = [(0, true); (1, false); (1, true)] /\
     completions tr = 1%nat).
Proof.
  split; [|repeat split].
  - intros w event Hinv.
    pose proof (key_step_facts event w Hinv) as Hs. cbv zeta in Hs.
    destruct Hs as (Hinv1 & Htc & Hpos & _ & _ & _ & Hc1 & Hciff & _).
    exists (fst (key_step event w)), (snd (key_step event w)).
    split; [apply keyPressEvent_step; apply Hinv|].
    assert (Hin : In typing_complete (snd (key_step event w)) <->
                  completions (snd (key_step event w)) = 1%nat)
      by (rewrite completions_In; lia).
    rewrite Htc. split.
    + rewrite Hin. exact Hciff.
    + intros Hfire. apply Hin in Hfire. split; [exact Hfire|].
      intros event'. apply Hciff in Hfire. destruct Hfire as (_ & _ & Hat).
      destruct (keyPressEvent_ignored (fst (key_step event w)) event')
        as (tr' & Hk & Hsig & _).
      { right. now rewrite Htc. }
      now exists tr'.
  - eexists. repeat split.
Qed.

Lemma completion_signal_witness :
  exists w' tr,
    keyPressEvent (press "b") (mkWidget (py "ab") 1 1 2) = Ok (tt, w', tr) /\
    (In typing_complete tr <->
     In (typing_progress 1 true) tr /\
     _current_position w' = 1 + 1 /\
     _current_position w' = len (_target_code w')) /\
    (In typing_complete tr ->
     completions tr = 1%nat /\
     forall event' : QKeyEvent,
       exists tr', keyPressEvent event' w' = Ok (tt, w', tr') /\ signals tr' = []).
Proof.
  apply (proj1 completion_signal (mkWidget (py "ab") 1 1 2) (press "b")).
  unfold invariant, len; simpl; lia.
Defined.

(** A call other than [set_target_code] keeps the invariant and the target
    and does not decrease a counter. *)
Lemma perform_monotone (c : call) (w : widget) :
  invariant w ->
  (forall code, c <> Call_set_target_code code) ->
  exists w' tr,
    perform c w = Ok (tt, w', tr) /\
    invariant w' /\
    _target_code w' = _target_code w /\
    _current_position w <= _current_position w' /\
    _error_count w <= _error_count w' /\
    _total_keystrokes w <= _total_keystrokes w'.
Proof.
  intros Hinv Hc. destruct c as [code|event| | |elapsed]; cbn [perform].
  - now destruct (Hc code).
  - pose proof (key_step_facts event w Hinv) as Hs. cbv zeta in Hs.
    destruct Hs as (Hinv1 & Htc & Hpos & Herr & Htot & _).
    exists (fst (key_step event w)), (snd (key_step event w)).
    repeat split; try apply Hinv1; try assumption; try lia.
    apply keyPressEvent_step. apply Hinv.
  - exists w, []. unfold bind. rewrite get_progress_percentage_eq.
    repeat split; try apply Hinv; lia.
  - exists w, []. unfold bind. rewrite get_accuracy_eq.
    repeat split; try apply Hinv; lia.
  - exists w, []. unfold bind. rewrite get_wpm_eq.
    repeat split; try apply Hinv; lia.
Qed.

(** C4. After [set_target_code], along every sequence of key events, the
    state always satisfies [0 <= position <= length(target)] and
    [errorCount <= totalKeystrokes], the target stays the one that was set,
    and position, error count and keystroke count never decrease: the state
    [w1] after any prefix [events1] and the state [w2] after any extension
    [events1 ++ events2] are compared.  Moreover every single call other
    than [set_target_code], a getter included, made in a state that meets
    the invariant returns, keeps the invariant and the target, and does not
    decrease a counter. *)
Theorem session_invariants :
  (forall (code : str) (events1 events2 : list QKeyEvent) (w0 : widget),
     exists w1 t1 w2 t2,
       session code events1 w0 = Ok (tt, w1, t1) /\
       run events2 w1 = Ok (tt, w2, t2) /\
       session code (events1 ++ events2) w0 = Ok (tt, w2, t1 ++ t2) /\
       _target_code w1 = code /\ _target_code w2 = code /\
       0 <= _current_position w1 <= len code /\
       _error_count w1 <= _total_keystrokes w1 /\
       0 <= _current_position w2 <= len code /\
       _error_count w2 <= _total_keystrokes w2 /\
       _current_position w1 <= _current_position w2 /\
       _error_count w1 <= _error_count w2 /\
       _total_keystrokes w1 <= _total_keystrokes w2) /\
  (forall (c : call) (w : widget),
     invariant w ->
     (forall code, c <> Call_set_target_code code) ->
     exists w' tr,
       perform c w = Ok (tt, w', tr) /\
       invariant w' /\
       _target_code w' = _target_code w /\
       _current_position w <= _current_position w' /\
       _error_count w <= _error_count w' /\
       _total_keystrokes w <= _total_keystrokes w').
Proof.
  split; [|exact perform_monotone].
  intros code events1 events2 w0.
  destruct (run_facts events1 _ (invariant_fresh code))
    as (w1 & t1 & Hr1 & Hinv1 & Htc1 & _).
  destruct (run_facts events2 w1 Hinv1)
    as (w2 & t2 & Hr2 & Hinv2 & Htc2 & Hp & He & Ht & _).
  exists w1, (clear :: t1), w2, t2.
  cbn [_target_code] in Htc1. rewrite Htc1 in Htc2.
  destruct Hinv1 as [Hp1 He1]. destruct Hinv2 as [Hp2 He2].
  rewrite Htc1 in Hp1. rewrite Htc2 in Hp2.
  repeat split; try assumption; try lia.
  - now apply session_eq.
  - apply (session_eq code (events1 ++ events2) w0 w2 (t1 ++ t2)).
    now apply run_app with w1.
Qed.

Lemma session_invariants_witness :
  exists w' tr,
    perform (Call_keyPressEvent (press "x")) (mkWidget (py "ab") 1 0 1) = Ok (tt, w', tr) /\
    invariant w' /\
    _target_code w' = py "ab" /\
    1 <= _current_position w' /\
    0 <= _error_count w' /\
    1 <= _total_keystrokes w'.
Proof.
  apply (proj2 session_invariants (Call_keyPressEvent (press "x"))
               (mkWidget (py "ab") 1 0 1)).
  - unfold invariant, len; simpl; lia.
  - discriminate.
Defined.

(** With no target set a run of key events does nothing at all. *)
Lemma run_idle (events : list QKeyEvent) (w : widget) :
  truthy (_target_code w) = false ->
  run events w = Ok (tt, w, []).
Proof.
  intros Htr. induction events as [|e rest IH]; [reflexivity|].
  apply (run_cons e rest w w w [] []); [now apply keyPressEvent_idle|exact IH].
Qed.

(** C8. A session on the empty target is Complete from the start
    ([position == length(target)]): whatever key events arrive, none is
    evaluated (the trace of the session holds the reset alone and the
    counters stay 0), [get_progress_percentage] returns 0 without dividing,
    [get_accuracy] returns 100 and [get_wpm] returns a number equal to 0. *)
Theorem empty_target (w0 : widget) (events : list QKeyEvent) (elapsed_seconds : Z) :
  let w := mkWidget [] 0 0 0 in
  session [] events w0 = Ok (tt, w, [clear]) /\
  _current_position w = len (_target_code w) /\
  get_progress_percentage w = Ok (PyInt 0, w, []) /\
  get_accuracy w = Ok (PyFloat 100, w, []) /\
  exists v, get_wpm elapsed_seconds w = Ok (v, w, []) /\ (to_Q v == 0)%Q.
Proof.
  intros w. repeat split.
  - apply session_eq. now apply run_idle.
  - rewrite get_wpm_eq. eexists. split; [reflexivity|].
    destruct (elapsed_seconds =? 0); [reflexivity|].
    unfold w; cbn [to_Q _current_position].
    unfold Qdiv. change (inject_Z 0) with 0%Q.
    now rewrite !Qmult_0_l.
Qed.

(** C9. The target is only ever read inside its bounds.  In a session
    ([set_target_code] and then any key events) nothing raises and every
    index at which the target was read lies in [0, length(target)); and
    after any run of calls on a freshly constructed widget, a key event does
    not raise and reads the target only at indices inside the current
    target. *)
Theorem expected_char_read_in_range :
  (forall (code : str) (events : list QKeyEvent) (w0 : widget),
     exists w tr,
       session code events w0 = Ok (tt, w, tr) /\
       Forall (fun i => 0 <= i < len code) (reads tr)) /\
  (forall (calls : list call) (event : QKeyEvent),
     exists w tr0 w' tr,
       exec calls init = Ok (tt, w, tr0) /\
       keyPressEvent event w = Ok (tt, w', tr) /\
       Forall (fun i => 0 <= i < len (_target_code w)) (reads tr)).
Proof.
  split.
  - intros code events w0.
    destruct (run_facts events _ (invariant_fresh code))
      as (w & tr & Hr & _ & _ & _ & _ & _ & Hrd & _).
    exists w, (clear :: tr). split; [now apply session_eq|exact Hrd].
  - intros calls event.
    destruct (exec_facts calls init invariant_init) as (w & tr0 & He & Hinv).
    pose proof (key_step_facts event w Hinv) as Hs. cbv zeta in Hs.
    destruct Hs as (_ & _ & _ & _ & _ & Hrd & _).
    exists w, tr0, (fst (key_step event w)), (snd (key_step event w)).
    repeat split; try assumption.
    apply keyPressEvent_step. apply Hinv.
Qed.

(** C10. After one [set_target_code], over any sequence of key events, the
    completion signal is emitted at most once, and never when the target is
    empty.  When the key event [event] of the sequence emits it, the position
    before was [length(target) - 1], the event was judged correct there, the
    position after is [length(target)], no completion signal was emitted
    before, and afterwards neither an outcome nor a completion is emitted. *)
Theorem completion_at_most_once (code : str) (events : list QKeyEvent) (w0 : widget) :
  exists w tr,
    session code events w0 = Ok (tt, w, tr) /\
    (completions tr <= 1)%nat /\
    (code = [] -> completions tr = 0%nat) /\
    (forall events1 event events2,
       events = events1 ++ event :: events2 ->
       exists w1 t1 w2 te t2,
         session code events1 w0 = Ok (tt, w1, t1) /\
         keyPressEvent event w1 = Ok (tt, w2, te) /\
         run events2 w2 = Ok (tt, w, t2) /\
         tr = t1 ++ te ++ t2 /\
         (In typing_complete te ->
          _current_position w1 = len code - 1 /\
          In (typing_progress (len code - 1) true) te /\
          _current_position w2 = len code /\
          completions t1 = 0%nat /\
          completions t2 = 0%nat /\ outcomes t2 = [])).
Proof.
  destruct (run_facts events _ (invariant_fresh code))
    as (w & tr & Hr & _ & _ & _ & _ & _ & _ & Hc & Hend).
  exists w, (clear :: tr).
  split; [now apply session_eq|].
  split; [exact Hc|].
  split.
  { intros ->. destruct (Hend eq_refl) as [_ Hsig].
    cbn [completions]. now apply no_signals_no_completions. }
  intros events1 event events2 ->.
  destruct (run_facts events1 _ (invariant_fresh code))
    as (w1 & t1 & Hr1 & Hinv1 & Htc1 & _).
  cbn [_target_code] in Htc1.
  pose proof (key_step_facts event w1 Hinv1) as Hs. cbv zeta in Hs.
  destruct Hs as (Hinv2 & Htc2 & _ & _ & _ & _ & _ & Hciff & _).
  set (w2 := fst (key_step event w1)) in *.
  set (te := snd (key_step event w1)) in *.
  destruct (run_facts events2 w2 Hinv2)
    as (w3 & t2 & Hr2 & _ & _ & _ & _ & _ & _ & _ & Hend2).
  assert (Hk : keyPressEvent event w1 = Ok (tt, w2, te))
    by (apply keyPressEvent_step; apply Hinv1).
  pose proof (run_app _ _ _ _ _ _ _ Hr1 (run_cons _ _ _ _ _ _ _ Hk Hr2)) as Hall.
  rewrite Hr in Hall. injection Hall as -> ->.
  exists w1, (clear :: t1), w2, te, t2.
  split; [now apply session_eq|].
  split; [exact Hk|].
  split; [exact Hr2|].
  split; [reflexivity|].
  intros Hfire.
  apply completions_In in Hfire.
  rewrite !completions_app in Hc.
  assert (Hone : completions te = 1%nat) by lia.
  apply Hciff in Hone. destruct Hone as (Hin & Hstep & Hat).
  rewrite Htc1 in Hat.
  assert (Hat2 : _current_position w2 = len (_target_code w2)) by congruence.
  destruct (Hend2 Hat2) as [_ Hsig2].
  replace (len code - 1) with (_current_position w1) by lia.
  repeat split; try assumption; try lia.
  - cbn [completions]. lia.
  - now apply no_signals_no_outcomes.
Qed.

Lemma completion_at_most_once_witness :
  exists w tr,
    session (py "ab") [press "a"; press "x"; press "b"; press "b"] init = Ok (tt, w, tr) /\
    (completions tr <= 1)%nat /\
    (py "ab" = [] -> completions tr = 0%nat) /\
    (forall events1 event events2,
       [press "a"; press "x"; press "b"; press "b"] = events1 ++ event :: events2 ->
       exists w1 t1 w2 te t2,
         session (py "ab") events1 init = Ok (tt, w1, t1) /\
         keyPressEvent event w1 = Ok (tt, w2, te) /\
         run events2 w2 = Ok (tt, w, t2) /\
         tr = t1 ++ te ++ t2 /\
         (In typing_complete te ->
          _current_position w1 = len (py "ab") - 1 /\
          In (typing_progress (len (py "ab") - 1) true) te /\
          _current_position w2 = len (py "ab") /\
          completions t1 = 0%nat /\
          completions t2 = 0%nat /\ outcomes t2 = [])).
Proof.
  exact (completion_at_most_once (py "ab")
           [press "a"; press "x"; press "b"; press "b"] init).
Defined.

(** * Further properties of a typing session *)

Lemma str_eqb_eq (s t : str) : str_eqb s t = true -> s = t.
Proof.
  revert t; induction s as [|a s IH]; intros [|b t]; unfold str_eqb; fold str_eqb;
    try discriminate; [reflexivity|].
  intros H. apply andb_true_iff in H. destruct H as [Hab Hst].
  apply N.eqb_eq in Hab. now rewrite Hab, (IH t Hst).
Qed.

Lemma firstn_succ_nth (s : str) (n : nat) :
  (n < List.length s)%nat -> firstn (S n) s = firstn n s ++ [nth n s 0%N].
Proof.
  revert n; induction s as [|a s IH]; intros n Hn; simpl in Hn; [lia|].
  destruct n as [|n]; [reflexivity|].
  rewrite (firstn_cons (S n)), (firstn_cons n), IH by lia. reflexivity.
Qed.

Lemma positions_app (from : Z) (n m : nat) :
  positions from (n + m) = positions from n ++ positions (from + Z.of_nat n) m.
Proof.
  revert from; induction n as [|n IH]; intros from.
  - simpl. now rewrite Z.add_0_r.
  - cbn [Nat.add positions app]. rewrite IH. do 3 f_equal. lia.
Qed.

Lemma inserted_app (a b : list effect) : inserted (a ++ b) = inserted a ++ inserted b.
Proof.
  induction a as [|x a IH]; [reflexivity|].
  destruct x; simpl; rewrite IH; try reflexivity. now rewrite app_assoc.
Qed.

(** What one key event adds to the counters, to the outcomes and to the
    inserted text. *)
Lemma key_step_account (event : QKeyEvent) (w : widget) :
  invariant w ->
  let w' := fst (key_step event w) in
  let tr := snd (key_step event w) in
  _total_keystrokes w' = _total_keystrokes w + Z.of_nat (List.length (outcomes tr)) /\
  _current_position w' = _current_position w + correct_count tr /\
  _error_count w' = _error_count w + error_outcomes tr /\
  correct_positions tr =
    positions (_current_position w)
              (Z.to_nat (_current_position w') - Z.to_nat (_current_position w)) /\
  firstn (Z.to_nat (_current_position w')) (_target_code w) =
    firstn (Z.to_nat (_current_position w)) (_target_code w) ++ inserted tr.
Proof.
  intros [Hp He]. unfold key_step, correct_positions, correct_count, error_outcomes.
  destruct (truthy (_target_code w)).
  2:{ cbn. rewrite Nat.sub_diag, app_nil_r. repeat split; lia. }
  destruct (typed_string event) as [typed|].
  2:{ cbn. rewrite Nat.sub_diag, app_nil_r. repeat split; lia. }
  destruct (_current_position w <? len (_target_code w)) eqn:Hlt.
  2:{ cbn. rewrite Nat.sub_diag, app_nil_r. repeat split; lia. }
  apply Z.ltb_lt in Hlt. cbn [fst snd].
  rewrite outcomes_keystroke.
  unfold after_keystroke, trace_of_keystroke. fields.
  destruct (judged typed w) eqn:Hj; cbn [filter snd fst negb map List.length].
  - apply str_eqb_eq in Hj. subst typed.
    replace (Z.to_nat (_current_position w + 1)) with (S (Z.to_nat (_current_position w)))
      by lia.
    replace (S (Z.to_nat (_current_position w)) - Z.to_nat (_current_position w))%nat
      with 1%nat by lia.
    rewrite firstn_succ_nth by (unfold len in Hlt; lia).
    repeat split; try (cbn; lia).
    destruct (len (_target_code w) <=? _current_position w + 1); reflexivity.
  - rewrite Nat.sub_diag. cbn. rewrite app_nil_r. repeat split; lia.
Qed.

(** The same along a run of key events. *)
Lemma run_account (events : list QKeyEvent) (w : widget) :
  invariant w ->
  exists w' tr,
    run events w = Ok (tt, w', tr) /\
    invariant w' /\
    _target_code w' = _target_code w /\
    _total_keystrokes w' = _total_keystrokes w + Z.of_nat (List.length (outcomes tr)) /\
    _current_position w' = _current_position w + correct_count tr /\
    _error_count w' = _error_count w + error_outcomes tr /\
    correct_positions tr =
      positions (_current_position w)
                (Z.to_nat (_current_position w') - Z.to_nat (_current_position w)) /\
    firstn (Z.to_nat (_current_position w')) (_target_code w) =
      firstn (Z.to_nat (_current_position w)) (_target_code w) ++ inserted tr.
Proof.
  revert w. induction events as [|e rest IH]; intros w Hinv.
  - exists w, []. cbn. rewrite Nat.sub_diag, app_nil_r.
    unfold correct_count, error_outcomes. cbn. repeat split; try lia; apply Hinv.
  - pose proof (key_step_facts e w Hinv) as Hs. cbv zeta in Hs.
    destruct Hs as (Hinv1 & Htc & Hmono & _).
    pose proof (key_step_account e w Hinv) as Ha. cbv zeta in Ha.
    destruct Ha as (Ht1 & Hp1 & He1 & Hc1 & Hi1).
    destruct (IH _ Hinv1) as (w2 & t2 & Hrun & Hinv2 & Htc2 & Ht2 & Hp2 & He2 & Hc2 & Hi2).
    exists w2, (snd (key_step e w) ++ t2).
    split.
    { apply run_cons with (fst (key_step e w)); [|exact Hrun].
      apply keyPressEvent_step. apply Hinv. }
    rewrite Htc in *.
    unfold correct_positions, correct_count, error_outcomes in *.
    rewrite outcomes_app, !filter_app, map_app, !length_app, inserted_app, !Nat2Z.inj_add.
    pose proof (proj1 Hinv) as Hpw. pose proof (proj1 Hinv1) as Hpw1.
    pose proof (proj1 Hinv2) as Hpw2.
    repeat split; try lia; try apply Hinv2; try congruence.
    + rewrite Hc1, Hc2.
      replace (Z.to_nat (_current_position w2) - Z.to_nat (_current_position w))%nat
        with ((Z.to_nat (_current_position (fst (key_step e w)))
               - Z.to_nat (_current_position w))
              + (Z.to_nat (_current_position w2)
                 - Z.to_nat (_current_position (fst (key_step e w)))))%nat by lia.
      rewrite positions_app. do 2 f_equal. lia.
    + rewrite Hi2, Hi1. now rewrite app_assoc.
Qed.

Lemma outcomes_partition (tr : list effect) :
  Z.of_nat (List.length (outcomes tr)) = correct_count tr + error_outcomes tr.
Proof.
  unfold correct_count, error_outcomes.
  induction (outcomes tr) as [|[p ok] l IH]; [reflexivity|].
  cbn [filter snd]. destruct ok; cbn [negb List.length]; lia.
Qed.

(** X1. In a session every evaluated keystroke is accounted for: the
    keystroke count is the number of outcomes emitted, the position is the
    number of outcomes judged correct, the error count is the number judged
    incorrect, and so the keystroke count is position plus error count. *)
Theorem keystrokes_accounted (code : str) (events : list QKeyEvent) (w0 : widget) :
  exists w tr,
    session code events w0 = Ok (tt, w, tr) /\
    _total_keystrokes w = Z.of_nat (List.length (outcomes tr)) /\
    _current_position w = correct_count tr /\
    _error_count w = error_outcomes tr /\
    _total_keystrokes w = _current_position w + _error_count w.
Proof.
  destruct (run_account events _ (invariant_fresh code))
    as (w & tr & Hr & _ & _ & Ht & Hp & He & _).
  cbn [_total_keystrokes _current_position _error_count] in Ht, Hp, He.
  exists w, (clear :: tr). split; [now apply session_eq|].
  change (outcomes (clear :: tr)) with (outcomes tr).
  change (correct_count (clear :: tr)) with (correct_count tr).
  change (error_outcomes (clear :: tr)) with (error_outcomes tr).
  pose proof (outcomes_partition tr). repeat split; lia.
Qed.

(** X2. Only correct characters are ever inserted: in a session the texts
    passed to [insertText], taken in order, spell exactly the part of the
    target before the current position. *)
Theorem inserted_text_is_typed_prefix (code : str) (events : list QKeyEvent) (w0 : widget) :
  exists w tr,
    session code events w0 = Ok (tt, w, tr) /\
    inserted tr = firstn (Z.to_nat (_current_position w)) code.
Proof.
  destruct (run_account events _ (invariant_fresh code))
    as (w & tr & Hr & _ & _ & _ & _ & _ & _ & Hi).
  cbn [_target_code _current_position] in Hi.
  exists w, (clear :: tr). split; [now apply session_eq|].
  change (inserted (clear :: tr)) with (inserted tr).
  now rewrite Hi.
Qed.

(** X3. In a session the outcomes judged correct are reported at the
    positions 0, 1, ..., position - 1, in this order and once each. *)
Theorem correct_outcomes_in_order (code : str) (events : list QKeyEvent) (w0 : widget) :
  exists w tr,
    session code events w0 = Ok (tt, w, tr) /\
    correct_positions tr = positions 0 (Z.to_nat (_current_position w)).
Proof.
  destruct (run_account events _ (invariant_fresh code))
    as (w & tr & Hr & _ & _ & _ & _ & _ & Hc & _).
  cbn [_current_position] in Hc. rewrite Nat.sub_0_r in Hc.
  exists w, (clear :: tr). split; [now apply session_eq|exact Hc].
Qed.

(** One key event emits the completion signal exactly when it moves the
    position from inside the target to its end. *)
Lemma key_step_completes (event : QKeyEvent) (w : widget) :
  invariant w ->
  _current_position w < len (_target_code w) ->
  (completions (snd (key_step event w)) = 1%nat <->
   _current_position (fst (key_step event w)) = len (_target_code w)).
Proof.
  intros Hinv Hlt. unfold key_step.
  destruct (truthy (_target_code w)); [|cbn; split; [discriminate|lia]].
  destruct (typed_string event) as [typed|]; [|cbn; split; [discriminate|lia]].
  replace (_current_position w <? len (_target_code w)) with true
    by (symmetry; apply Z.ltb_lt; lia).
  cbn [fst snd]. unfold after_keystroke, trace_of_keystroke. fields.
  destruct (judged typed w); [|cbn; split; [discriminate|lia]].
  destruct (len (_target_code w) <=? _current_position w + 1) eqn:Hend.
  - apply Z.leb_le in Hend. cbn. split; [lia|reflexivity].
  - apply Z.leb_gt in Hend. cbn. split; [discriminate|lia].
Qed.

Lemma run_completes (events : list QKeyEvent) (w : widget) :
  invariant w ->
  exists w' tr,
    run events w = Ok (tt, w', tr) /\
    (_current_position w < len (_target_code w) ->
     (completions tr = 1%nat <-> _current_position w' = len (_target_code w))) /\
    (_current_position w = len (_target_code w) -> completions tr = 0%nat).
Proof.
  revert w. induction events as [|e rest IH]; intros w Hinv.
  - exists w, []. cbn. repeat split; try lia; discriminate.
  - pose proof (key_step_facts e w Hinv) as Hs. cbv zeta in Hs.
    destruct Hs as (Hinv1 & Htc & Hmono & _ & _ & _ & Hc1 & _ & Hend).
    destruct (IH _ Hinv1) as (w2 & t2 & Hrun & Hlt2 & Hend2).
    destruct (run_facts rest _ Hinv1) as (w2' & t2' & Hrun' & _ & _ & _ & _ & _ & _ & _ & Hstay).
    rewrite Hrun in Hrun'. injection Hrun' as <- <-.
    exists w2, (snd (key_step e w) ++ t2).
    split.
    { apply run_cons with (fst (key_step e w)); [|exact Hrun].
      apply keyPressEvent_step. apply Hinv. }
    rewrite Htc in *. rewrite completions_app.
    split.
    + intros Hlt. pose proof (key_step_completes e w Hinv Hlt) as Hk.
      destruct (Z.eq_dec (_current_position (fst (key_step e w))) (len (_target_code w)))
        as [Hat|Hnot].
      * destruct (Hstay Hat) as [-> _]. rewrite (Hend2 Hat).
        apply Hk in Hat. rewrite Hat. split; [intros _; now apply Hk|reflexivity].
      * assert (Hz : completions (snd (key_step e w)) = 0%nat).
        { destruct (completions (snd (key_step e w))) as [|[|n]]; [reflexivity| |lia].
          exfalso. apply Hnot. now apply Hk. }
        rewrite Hz. cbn [Nat.add]. apply Hlt2. destruct Hinv1 as [Hb _]. lia.
    + intros Hat. destruct (Hend Hat) as [Hw Hsig].
      rewrite (no_signals_no_completions _ Hsig). rewrite Hw in Hend2.
      now rewrite (Hend2 Hat).
Qed.

(** X4. In a session the completion signal has been emitted (once) exactly
    when the target is not empty and the position has reached its end;
    otherwise it has not been emitted. *)
Theorem completion_iff_target_typed (code : str) (events : list QKeyEvent) (w0 : widget) :
  exists w tr,
    session code events w0 = Ok (tt, w, tr) /\
    (completions tr = 1%nat <-> code <> [] /\ _current_position w = len code) /\
    (completions tr = 0%nat <-> code = [] \/ _current_position w < len code).
Proof.
  destruct (run_completes events _ (invariant_fresh code)) as (w & tr & Hr & Hlt & Hend).
  destruct (run_facts events _ (invariant_fresh code))
    as (w' & tr' & Hr' & Hinv & Htc & _ & _ & _ & _ & Hc & _).
  rewrite Hr in Hr'. injection Hr' as <- <-.
  cbn [_target_code _current_position] in *.
  exists w, (clear :: tr). split; [now apply session_eq|].
  change (completions (clear :: tr)) with (completions tr).
  destruct Hinv as [Hb _]. rewrite Htc in Hb.
  destruct code as [|c code].
  - rewrite (Hend eq_refl). split; split; try discriminate; try tauto.
  - assert (Hpos : 0 < len (c :: code)) by (unfold len; cbn [List.length]; lia).
    specialize (Hlt Hpos). split.
    + rewrite Hlt. split; [intros H; split; [discriminate|exact H]|tauto].
    + split.
      * intros H0. right. destruct (Z.eq_dec (_current_position w) (len (c :: code))) as [E|N];
          [apply Hlt in E; lia|lia].
      * intros [H|H]; [discriminate|].
        destruct (completions tr) as [|[|n]]; [reflexivity| |lia].
        assert (E : _current_position w = len (c :: code)) by now apply Hlt. lia.
Qed.

Lemma skipn_head (s : str) (n : nat) (c : char) (rest : str) :
  skipn n s = c :: rest ->
  (n < List.length s)%nat /\ nth n s 0%N = c /\ skipn (S n) s = rest.
Proof.
  revert n; induction s as [|a s IH]; intros n H.
  - destruct n; discriminate H.
  - destruct n as [|n].
    + cbn in H. injection H as -> ->. cbn. repeat split. lia.
    + rewrite skipn_cons in H. destruct (IH n H) as (Hn & Hc & Hr).
      cbn [List.length nth]. rewrite skipn_cons. repeat split; try assumption. lia.
Qed.

Lemma positions_outcomes_cons (p : Z) (n : nat) :
  map (fun q => (q, true)) (positions p (S n)) =
  (p, true) :: map (fun q => (q, true)) (positions (p + 1) n).
Proof. reflexivity. Qed.

(** Typing what is left of the target, one correct character per event. *)
Lemma run_typing (events : list QKeyEvent) (w : widget) :
  invariant w ->
  Forall2 (fun e c => logical_char e = Some c) events
          (skipn (Z.to_nat (_current_position w)) (_target_code w)) ->
  exists tr,
    run events w =
      Ok (tt,
          mkWidget (_target_code w) (len (_target_code w)) (_error_count w)
                   (_total_keystrokes w + (len (_target_code w) - _current_position w)),
          tr) /\
    outcomes tr =
      map (fun p => (p, true)) (positions (_current_position w) (List.length events)) /\
    inserted tr = skipn (Z.to_nat (_current_position w)) (_target_code w) /\
    completions tr = match events with [] => 0%nat | _ :: _ => 1%nat end.
Proof.
  revert w. induction events as [|e rest IH]; intros w Hinv Hall.
  - assert (Hnil : skipn (Z.to_nat (_current_position w)) (_target_code w) = [])
      by (inversion Hall; congruence).
    assert (Hend : _current_position w = len (_target_code w)).
    { destruct Hinv as [Hb _]. unfold len in *.
      assert (List.length (skipn (Z.to_nat (_current_position w)) (_target_code w)) = 0%nat)
        by now rewrite Hnil.
      rewrite length_skipn in H. lia. }
    exists []. cbn [run ret]. rewrite Hnil.
    destruct w as [tc p er tot]; fields. subst p.
    replace (tot + (len tc - len tc)) with tot by lia. now repeat split.
  - assert (Hinv' : exists c chars,
               skipn (Z.to_nat (_current_position w)) (_target_code w) = c :: chars /\
               logical_char e = Some c /\
               Forall2 (fun e c => logical_char e = Some c) rest chars)
      by (inversion Hall; subst; eauto).
    destruct Hinv' as (c & chars & Heq2 & Hc & Hrest).
    destruct (skipn_head _ _ _ _ Heq2) as (Hn & Hnth & Hskip).
    assert (Hpos : 0 <= _current_position w < len (_target_code w))
      by (destruct Hinv as [Hb _]; unfold len; lia).
    pose proof (keyPressEvent_evaluated e [c] w (logical_char_typed _ _ Hc) Hpos) as Hk.
    assert (Hj : judged [c] w = true).
    { unfold judged, expectedChar. rewrite Hnth. apply str_eqb_refl. }
    pose proof (key_step_facts e w Hinv) as Hs. cbv zeta in Hs.
    destruct Hs as (Hinv1 & _).
    assert (Hstep : fst (key_step e w) = after_keystroke [c] w).
    { pose proof (keyPressEvent_step e w (proj1 Hpos)) as Hk'.
      rewrite Hk in Hk'. now injection Hk' as <- _. }
    rewrite Hstep in Hinv1.
    assert (Hw1 : after_keystroke [c] w =
                  mkWidget (_target_code w) (_current_position w + 1) (_error_count w)
                           (_total_keystrokes w + 1))
      by (unfold after_keystroke; now rewrite Hj).
    rewrite Hw1 in Hinv1, Hk.
    destruct (IH _ Hinv1) as (t2 & Hrun & Hout & Hins & Hcomp).
    { fields. replace (Z.to_nat (_current_position w + 1))
        with (S (Z.to_nat (_current_position w))) by lia.
      now rewrite Hskip. }
    fields.
    exists (trace_of_keystroke [c] w ++ t2). split.
    { rewrite (run_cons _ _ _ _ _ _ _ Hk Hrun).
      replace (_total_keystrokes w + 1 + (len (_target_code w) - (_current_position w + 1)))
        with (_total_keystrokes w + (len (_target_code w) - _current_position w)) by lia.
      reflexivity. }
    rewrite outcomes_app, inserted_app, completions_app, outcomes_keystroke, Hj, Hout, Hins, Hcomp.
    cbn [List.length]. rewrite positions_outcomes_cons.
    replace (Z.to_nat (_current_position w + 1))
      with (S (Z.to_nat (_current_position w))) by lia.
    rewrite Hskip, Heq2.
    unfold trace_of_keystroke. rewrite Hj.
    repeat split.
    { destruct (len (_target_code w) <=? _current_position w + 1); reflexivity. }
    assert (Hlen : List.length (skipn (Z.to_nat (_current_position w)) (_target_code w))
                   = S (List.length rest))
      by (rewrite Heq2; cbn [List.length]; now rewrite (Forall2_length Hrest)).
    rewrite length_skipn in Hlen.
    destruct rest as [|e2 rest]; cbn [List.length] in Hlen.
    + replace (len (_target_code w) <=? _current_position w + 1) with true
        by (symmetry; apply Z.leb_le; unfold len; lia).
      reflexivity.
    + replace (len (_target_code w) <=? _current_position w + 1) with false
        by (symmetry; apply Z.leb_gt; unfold len; lia).
      reflexivity.
Qed.

(** X5. Typing the target itself, one event per character (Enter or Return
    for a newline), ends the session at the end of the target with no error,
    as many keystrokes as characters, every outcome correct, the whole target
    inserted, and the completion signal emitted once (never for the empty
    target). *)
Theorem typing_the_target (code : str) (events : list QKeyEvent) (w0 : widget) :
  Forall2 (fun e c => logical_char e = Some c) events code ->
  exists tr,
    session code events w0 = Ok (tt, mkWidget code (len code) 0 (len code), tr) /\
    outcomes tr = map (fun p => (p, true)) (positions 0 (List.length code)) /\
    inserted tr = code /\
    completions tr = match code with [] => 0%nat | _ :: _ => 1%nat end.
Proof.
  intros Hall.
  destruct (run_typing events (mkWidget code 0 0 0) (invariant_fresh code) Hall)
    as (tr & Hrun & Hout & Hins & Hcomp).
  fields. cbn [Z.to_nat skipn] in *.
  exists (clear :: tr). split.
  { apply session_eq. rewrite Hrun.
    replace (0 + (len code - 0)) with (len code) by lia. reflexivity. }
  change (outcomes (clear :: tr)) with (outcomes tr).
  change (inserted (clear :: tr)) with (inserted tr).
  change (completions (clear :: tr)) with (completions tr).
  rewrite Hout, Hins, Hcomp, (Forall2_length Hall).
  repeat split.
  destruct Hall; reflexivity.
Qed.

Lemma typing_the_target_witness :
  exists tr,
    session [97; 10; 98]%N [press "a"; press_return; press "b"] init =
      Ok (tt, mkWidget [97; 10; 98]%N 3 0 3, tr) /\
    outcomes tr = [(0, true); (1, true); (2, true)] /\
    inserted tr = [97; 10; 98]%N /\
    completions tr = 1%nat.
Proof.
  apply (typing_the_target [97; 10; 98]%N [press "a"; press_return; press "b"] init).
  repeat constructor.
Defined.





Lemma str_eqb_true_iff (s t : str) : str_eqb s t = true <-> s = t.
Proof. split; [apply str_eqb_eq|intros ->; apply str_eqb_refl]. Qed.

(** X7. A key other than Enter and Return, pressed at a position inside
    the target, advances the position exactly when its text is the one
    expected character and neither Control nor Alt is held; a longer text
    (several characters in one event) never advances it.  The position moves
    by at most one per event. *)
Theorem advance_iff_exact_text (w : widget) (event : QKeyEvent) :
  0 <= _current_position w < len (_target_code w) ->
  key event <> Key_Return ->
  key event <> Key_Enter ->
  exists w' tr,
    keyPressEvent event w = Ok (tt, w', tr) /\
    (_current_position w' = _current_position w \/
     _current_position w' = _current_position w + 1) /\
    (_current_position w' = _current_position w + 1 <->
     text event = [expectedChar w (_current_position w)] /\
     Z.land (modifiers event) (Z.lor ControlModifier AltModifier) = 0) /\
    ((2 <= List.length (text event))%nat -> _current_position w' = _current_position w).
Proof.
  intros Hpos Hk1 Hk2.
  assert (Hp : (key event =? Key_Return) || (key event =? Key_Enter) = false)
    by (apply orb_false_iff; split; now apply Z.eqb_neq).
  assert (Htr : truthy (_target_code w) = true) by (apply truthy_len; lia).
  destruct (typed_string event) as [typed|] eqn:Hty.
  - exists (after_keystroke typed w), (trace_of_keystroke typed w).
    split; [now apply keyPressEvent_evaluated|].
    unfold typed_string in Hty. rewrite Hp in Hty.
    destruct (truthy (text event)) eqn:Htx; [|discriminate].
    destruct (flags (Z.land (modifiers event) (Z.lor ControlModifier AltModifier))) eqn:Hf;
      [discriminate|].
    injection Hty as <-.
    unfold flags in Hf. apply negb_false_iff, Z.eqb_eq in Hf.
    unfold after_keystroke, judged. fields.
    destruct (str_eqb (text event) [expectedChar w (_current_position w)]) eqn:Hj.
    + apply str_eqb_eq in Hj. rewrite Hj. cbn [List.length].
      repeat split; lia.
    + repeat split; try lia; try (now left).
      intros [Heq _]. rewrite Heq, str_eqb_refl in Hj. discriminate.
  - exists w, [super_keyPressEvent event].
    split; [now apply keyPressEvent_passed|].
    unfold typed_string in Hty. rewrite Hp in Hty.
    repeat split; try lia; try (now left).
    intros [Heq Hm]. rewrite Heq in Hty. unfold flags in Hty. rewrite Hm in Hty.
    discriminate.
Qed.

Lemma advance_iff_exact_text_witness :
  exists w' tr,
    keyPressEvent (press "bc") (mkWidget (py "abc") 1 0 1) = Ok (tt, w', tr) /\
    (_current_position w' = 1 \/ _current_position w' = 1 + 1) /\
    (_current_position w' = 1 + 1 <->
     py "bc" = [expectedChar (mkWidget (py "abc") 1 0 1) 1] /\
     Z.land NoModifier (Z.lor ControlModifier AltModifier) = 0) /\
    ((2 <= List.length (py "bc"))%nat -> _current_position w' = 1).
Proof.
  apply (advance_iff_exact_text (mkWidget (py "abc") 1 0 1) (press "bc")).
  - unfold len; simpl; lia.
  - discriminate.
  - discriminate.
Defined.

(** * The metric getters after a session *)

Lemma ratio_bounds (a b : Z) :
  0 <= a <= b -> 0 < b -> (0 <= inject_Z a / inject_Z b <= 1)%Q.
Proof.
  intros Hab Hb.
  assert (HbQ : (0 < inject_Z b)%Q) by (change 0%Q with (inject_Z 0); rewrite <- Zlt_Qlt; lia).
  assert (HaQ : (0 <= inject_Z a)%Q) by (change 0%Q with (inject_Z 0); rewrite <- Zle_Qle; lia).
  assert (HabQ : (inject_Z a <= inject_Z b)%Q) by (rewrite <- Zle_Qle; lia).
  split.
  - apply Qle_shift_div_l; [exact HbQ|]. now rewrite Qmult_0_l.
  - apply Qle_shift_div_r; [exact HbQ|]. now rewrite Qmult_1_l.
Qed.

Lemma ratio_one (b : Z) : 0 < b -> (inject_Z b / inject_Z b == 1)%Q.
Proof.
  intros Hb. apply Qmult_inv_r. intros H.
  unfold Qeq, inject_Z in H. cbn [Qnum Qden] in H. lia.
Qed.

(** X8. After any session and for any number of elapsed seconds that is
    not negative, the three getters return without raising and without
    touching the widget, the accuracy and the progress lie between 0 and 100,
    and the speed is not negative. *)
Theorem metrics_in_range
        (code : str) (events : list QKeyEvent) (w0 : widget) (elapsed_seconds : Z) :
  0 <= elapsed_seconds ->
  exists w tr accuracy wpm progress,
    session code events w0 = Ok (tt, w, tr) /\
    get_accuracy w = Ok (accuracy, w, []) /\
    get_wpm elapsed_seconds w = Ok (wpm, w, []) /\
    get_progress_percentage w = Ok (progress, w, []) /\
    (0 <= to_Q accuracy <= 100)%Q /\
    (0 <= to_Q wpm)%Q /\
    (0 <= to_Q progress <= 100)%Q.
Proof.
  intros Hel.
  destruct (run_facts events _ (invariant_fresh code))
    as (w & tr & Hr & [Hp He] & Htc & _).
  cbn [_target_code] in Htc.
  exists w, (clear :: tr). do 3 eexists.
  split; [now apply session_eq|].
  rewrite get_accuracy_eq, get_wpm_eq, get_progress_percentage_eq.
  do 3 (split; [reflexivity|]).
  repeat apply conj.
  - destruct (_total_keystrokes w =? 0) eqn:Ht; cbn [to_Q]; change (inject_Z 0) with 0%Q; [lra|].
    apply Z.eqb_neq in Ht.
    pose proof (ratio_bounds (_error_count w) (_total_keystrokes w) He ltac:(lia)). lra.
  - destruct (_total_keystrokes w =? 0) eqn:Ht; cbn [to_Q]; change (inject_Z 0) with 0%Q; [lra|].
    apply Z.eqb_neq in Ht.
    pose proof (ratio_bounds (_error_count w) (_total_keystrokes w) He ltac:(lia)). lra.
  - destruct (elapsed_seconds =? 0) eqn:Hz; cbn [to_Q]; change (inject_Z 0) with 0%Q; [lra|].
    apply Z.eqb_neq in Hz.
    assert (H1 : (0 <= inject_Z (_current_position w))%Q) by (change 0%Q with (inject_Z 0); rewrite <- Zle_Qle; lia).
    assert (H2 : (0 < inject_Z elapsed_seconds)%Q)
      by (change 0%Q with (inject_Z 0); rewrite <- Zlt_Qlt; lia).
    assert (H3 : (0 < inject_Z elapsed_seconds / 60)%Q)
      by (apply Qlt_shift_div_l; [reflexivity|rewrite Qmult_0_l; exact H2]).
    apply Qle_shift_div_l; [exact H3|]. rewrite Qmult_0_l.
    apply Qle_shift_div_l; [reflexivity|]. now rewrite Qmult_0_l.
  - destruct (truthy (_target_code w)) eqn:Htr; cbn [to_Q]; change (inject_Z 0) with 0%Q; [|lra].
    apply truthy_len in Htr.
    pose proof (ratio_bounds (_current_position w) (len (_target_code w)) Hp Htr). lra.
  - destruct (truthy (_target_code w)) eqn:Htr; cbn [to_Q]; change (inject_Z 0) with 0%Q; [|lra].
    apply truthy_len in Htr.
    pose proof (ratio_bounds (_current_position w) (len (_target_code w)) Hp Htr). lra.
Qed.

Lemma metrics_in_range_witness :
  exists w tr accuracy wpm progress,
    session (py "ab") [press "a"; press "x"] init = Ok (tt, w, tr) /\
    get_accuracy w = Ok (accuracy, w, []) /\
    get_wpm 30 w = Ok (wpm, w, []) /\
    get_progress_percentage w = Ok (progress, w, []) /\
    (0 <= to_Q accuracy <= 100)%Q /\
    (0 <= to_Q wpm)%Q /\
    (0 <= to_Q progress <= 100)%Q.
Proof.
  apply (metrics_in_range (py "ab") [press "a"; press "x"] init 30). lia.
Defined.

(** X9. The readings at the ends of the scale.  After a session in which
    the completion signal was emitted the progress reads 100; after a session
    with no outcome judged incorrect the accuracy reads 100; and as long as
    no outcome was judged correct the progress and the speed read 0. *)
Theorem metrics_at_the_ends
        (code : str) (events : list QKeyEvent) (w0 : widget) (elapsed_seconds : Z) :
  exists w tr accuracy wpm progress,
    session code events w0 = Ok (tt, w, tr) /\
    get_accuracy w = Ok (accuracy, w, []) /\
    get_wpm elapsed_seconds w = Ok (wpm, w, []) /\
    get_progress_percentage w = Ok (progress, w, []) /\
    (completions tr = 1%nat -> (to_Q progress == 100)%Q) /\
    (error_outcomes tr = 0 -> (to_Q accuracy == 100)%Q) /\
    (correct_count tr = 0 -> (to_Q progress == 0)%Q /\ (to_Q wpm == 0)%Q).
Proof.
  destruct (run_account events _ (invariant_fresh code))
    as (w & tr & Hr & [Hp He] & Htc & Ht & Hpc & Hec & _).
  destruct (run_completes events _ (invariant_fresh code)) as (w' & tr' & Hr' & Hlt & Hend).
  rewrite Hr in Hr'. injection Hr' as <- <-.
  cbn [_target_code _current_position _error_count _total_keystrokes] in *.
  exists w, (clear :: tr). do 3 eexists.
  split; [now apply session_eq|].
  rewrite get_accuracy_eq, get_wpm_eq, get_progress_percentage_eq.
  do 3 (split; [reflexivity|]).
  change (completions (clear :: tr)) with (completions tr).
  change (correct_count (clear :: tr)) with (correct_count tr).
  change (error_outcomes (clear :: tr)) with (error_outcomes tr).
  repeat apply conj.
  - intros Hc.
    assert (Hpos : 0 < len code).
    { destruct (Z.eq_dec (len code) 0) as [E|N]; [|pose proof (len_nonneg code); lia].
      rewrite Hend in Hc; [discriminate|lia]. }
    apply Hlt in Hc; [|exact Hpos].
    rewrite Htc.
    replace (truthy code) with true by (symmetry; apply truthy_len; exact Hpos).
    cbn [to_Q]. rewrite Hc, (ratio_one _ Hpos). reflexivity.
  - intros H0. rewrite H0 in Hec.
    destruct (_total_keystrokes w =? 0); cbn [to_Q]; change (inject_Z 0) with 0%Q; [reflexivity|].
    rewrite Hec. unfold Qdiv. change (inject_Z (0 + 0)) with 0%Q. rewrite Qmult_0_l. reflexivity.
  - intros H0. rewrite H0 in Hpc. split.
    + destruct (truthy (_target_code w)); cbn [to_Q]; change (inject_Z 0) with 0%Q;
        [|reflexivity].
      rewrite Hpc. unfold Qdiv. change (inject_Z (0 + 0)) with 0%Q.
      rewrite Qmult_0_l. reflexivity.
    + destruct (elapsed_seconds =? 0); cbn [to_Q]; change (inject_Z 0) with 0%Q;
        [reflexivity|].
      rewrite Hpc. unfold Qdiv. change (inject_Z (0 + 0)) with 0%Q.
      rewrite !Qmult_0_l. reflexivity.
Qed.

(** * The window: clock, slots and connected handler *)

Lemma on_input_get_progress (g : Game.window) :
  Game.on_input get_progress_percentage g =
  Ok (progress_value (Game.typing_input g), g, []).
Proof.
  unfold Game.on_input. rewrite get_progress_percentage_eq. now destruct g.
Qed.

Lemma on_input_get_accuracy (g : Game.window) :
  Game.on_input get_accuracy g = Ok (accuracy_value (Game.typing_input g), g, []).
Proof.
  unfold Game.on_input. rewrite get_accuracy_eq. now destruct g.
Qed.

Lemma on_input_get_wpm (elapsed : Z) (g : Game.window) :
  Game.on_input (get_wpm elapsed) g = Ok (wpm_value elapsed (Game.typing_input g), g, []).
Proof.
  unfold Game.on_input. rewrite get_wpm_eq. now destruct g.
Qed.

(** [end_game] in closed form: it changes no attribute. *)
Lemma end_game_eq (completed : bool) (g : Game.window) :
  Game.end_game completed g = Ok (tt, g, end_trace completed g).
Proof.
  unfold Game.end_game, Game.gbind, Game.gtell, Game.gself.
  rewrite on_input_get_accuracy, on_input_get_wpm, on_input_get_progress.
  unfold end_trace. destruct completed; reflexivity.
Qed.

Lemma update_typing_progress_eq (position : Z) (ok : bool) (g : Game.window) :
  Game.update_typing_progress position ok g =
  Ok (tt, g, [Game.highlight_current_position position ok;
              Game.scroll_to_position position;
              Game.progress_bar_setValue_int (progress_value (Game.typing_input g))]).
Proof.
  unfold Game.update_typing_progress, Game.gbind, Game.gtell.
  rewrite on_input_get_progress. reflexivity.
Qed.

Lemma on_input_self {A} (field : widget -> A) (g : Game.window) :
  Game.on_input (self field) g = Ok (field (Game.typing_input g), g, []).
Proof. unfold Game.on_input, self. now destruct g. Qed.

Lemma on_input_tell (e : effect) (g : Game.window) :
  Game.on_input (tell e) g = Ok (tt, g, [Game.input e]).
Proof. unfold Game.on_input, tell. now destruct g. Qed.

Lemma on_input_subscript (g : Game.window) :
  0 <= _current_position (Game.typing_input g) < len (_target_code (Game.typing_input g)) ->
  Game.on_input (subscript (_target_code (Game.typing_input g))
                           (_current_position (Game.typing_input g))) g =
  Ok ([expectedChar (Game.typing_input g) (_current_position (Game.typing_input g))], g,
      [Game.input (Subscript (_current_position (Game.typing_input g)))]).
Proof.
  intros H. unfold Game.on_input. rewrite subscript_in_range by exact H. now destruct g.
Qed.

Ltac game_fields :=
  cbn [Game.typing_input Game.remaining_seconds Game.elapsed_seconds Game.current_code
       _target_code _current_position _error_count _total_keystrokes] in *.

(** The connected handler on an event that is evaluated. *)
Lemma game_key_evaluated (event : QKeyEvent) (typed : str) (g : Game.window) :
  typed_string event = Some typed ->
  0 <= _current_position (Game.typing_input g) < len (_target_code (Game.typing_input g)) ->
  Game.keyPressEvent event g =
  Ok (tt, with_input g (after_keystroke typed (Game.typing_input g)),
      game_trace_of_keystroke typed g).
Proof.
  intros Hty Hpos.
  assert (Htr : truthy (_target_code (Game.typing_input g)) = true)
    by (apply truthy_len; lia).
  assert (Hlt : (_current_position (Game.typing_input g)
                 <? len (_target_code (Game.typing_input g))) = true)
    by (apply Z.ltb_lt; lia).
  pose proof (subscript_in_range _ _ (Game.typing_input g) Hpos) as Hsub.
  unfold typed_string in Hty.
  unfold game_trace_of_keystroke, with_input, after_keystroke, judged, expectedChar.
  destruct g as [[tc pos err tot] r e c]. game_fields.
  unfold Game.keyPressEvent, Game.handle_typing_complete.
  unfold Game.gbind at 1. unfold Game.on_input at 1, self at 1. game_fields.
  rewrite Htr. cbn [negb].
  destruct ((key event =? Key_Return) || (key event =? Key_Enter)).
  - injection Hty as <-.
    unfold Game.gbind, Game.on_input, Game.gret, self, tell,
      set_total_keystrokes, set_error_count, set_current_position.
    game_fields. rewrite Hlt. game_fields. rewrite Hsub. cbn [map app]. game_fields.
    rewrite (str_eqb_sym newline).
    destruct (str_eqb [nth (Z.to_nat pos) tc 0%N] newline); cbn [negb]; game_fields.
    + rewrite update_typing_progress_eq. game_fields. cbn [map app].
      destruct (len tc <=? pos + 1); [rewrite end_game_eq|]; reflexivity.
    + rewrite update_typing_progress_eq. reflexivity.
  - destruct (truthy (text event) &&
              negb (flags (Z.land (modifiers event) (Z.lor ControlModifier AltModifier))));
      [|discriminate].
    injection Hty as <-.
    unfold Game.gbind, Game.on_input, Game.gret, self, tell,
      set_total_keystrokes, set_error_count, set_current_position.
    game_fields. rewrite Hlt. game_fields. rewrite Hsub. cbn [map app]. game_fields.
    destruct (str_eqb (text event) [nth (Z.to_nat pos) tc 0%N]); cbn [negb]; game_fields.
    + rewrite update_typing_progress_eq. game_fields. cbn [map app].
      destruct (len tc <=? pos + 1); [rewrite end_game_eq|]; reflexivity.
    + rewrite update_typing_progress_eq. reflexivity.
Qed.

Lemma game_key_idle (event : QKeyEvent) (g : Game.window) :
  truthy (_target_code (Game.typing_input g)) = false ->
  Game.keyPressEvent event g = Ok (tt, g, []).
Proof.
  intros Htr. unfold Game.keyPressEvent, Game.gbind at 1.
  rewrite on_input_self, Htr. reflexivity.
Qed.

Lemma game_key_passed (event : QKeyEvent) (g : Game.window) :
  truthy (_target_code (Game.typing_input g)) = true ->
  typed_string event = None ->
  Game.keyPressEvent event g = Ok (tt, g, [Game.input (super_keyPressEvent event)]).
Proof.
  intros Htr Hty. unfold typed_string in Hty.
  unfold Game.keyPressEvent, Game.gbind at 1.
  rewrite on_input_self, Htr. cbn [negb].
  destruct ((key event =? Key_Return) || (key event =? Key_Enter)); [discriminate|].
  destruct (truthy (text event) &&
            negb (flags (Z.land (modifiers event) (Z.lor ControlModifier AltModifier))));
    [discriminate|].
  now rewrite on_input_tell.
Qed.

Lemma game_key_at_end (event : QKeyEvent) (typed : str) (g : Game.window) :
  truthy (_target_code (Game.typing_input g)) = true ->
  typed_string event = Some typed ->
  len (_target_code (Game.typing_input g)) <= _current_position (Game.typing_input g) ->
  Game.keyPressEvent event g = Ok (tt, g, [Game.input accept]).
Proof.
  intros Htr Hty Hge. unfold typed_string in Hty.
  assert (Hlt : (_current_position (Game.typing_input g)
                 <? len (_target_code (Game.typing_input g))) = false)
    by (apply Z.ltb_ge; lia).
  unfold Game.keyPressEvent, Game.gbind at 1.
  rewrite on_input_self, Htr. cbn [negb].
  destruct ((key event =? Key_Return) || (key event =? Key_Enter)).
  - unfold Game.gbind. rewrite !on_input_self, Hlt. unfold Game.gret.
    now rewrite on_input_tell.
  - destruct (truthy (text event) &&
              negb (flags (Z.land (modifiers event) (Z.lor ControlModifier AltModifier))));
      [|discriminate].
    unfold Game.gbind. rewrite !on_input_self, Hlt. unfold Game.gret.
    now rewrite on_input_tell.
Qed.

Lemma with_input_same (g : Game.window) : with_input g (Game.typing_input g) = g.
Proof. now destruct g. Qed.

(** The connected handler in closed form. *)
Lemma game_key_step (event : QKeyEvent) (g : Game.window) :
  0 <= _current_position (Game.typing_input g) ->
  Game.keyPressEvent event g =
  Ok (tt, with_input g (fst (key_step event (Game.typing_input g))),
      game_key_trace event g).
Proof.
  intros Hpos. unfold key_step, game_key_trace.
  destruct (truthy (_target_code (Game.typing_input g))) eqn:Htr.
  - destruct (typed_string event) as [typed|] eqn:Hty.
    + destruct (_current_position (Game.typing_input g)
                <? len (_target_code (Game.typing_input g))) eqn:Hlt.
      * apply Z.ltb_lt in Hlt. cbn [fst]. now apply game_key_evaluated.
      * apply Z.ltb_ge in Hlt. cbn [fst]. rewrite with_input_same.
        now apply game_key_at_end with typed.
    + cbn [fst]. rewrite with_input_same. now apply game_key_passed.
  - cbn [fst]. rewrite with_input_same. now apply game_key_idle.
Qed.

Lemma widget_calls_app (a b : list Game.gui) :
  widget_calls (a ++ b) = widget_calls a ++ widget_calls b.
Proof.
  induction a as [|x a IH]; [reflexivity|]. destruct x; simpl; now rewrite IH.
Qed.

(** X10. Connecting the slots changes nothing in what the typing widget
    does: for any key event in a state that meets the invariant, the
    connected handler leaves the widget exactly as the bare handler does,
    makes the same calls on the widget in the same order, and leaves the
    clock untouched; each outcome signal becomes one highlight with the same
    position and verdict, and each completion signal stops the timer once
    and opens one results dialog. *)
Theorem connected_handler_agrees (g : Game.window) (event : QKeyEvent) :
  invariant (Game.typing_input g) ->
  exists g' gtr w' tr,
    Game.keyPressEvent event g = Ok (tt, g', gtr) /\
    keyPressEvent event (Game.typing_input g) = Ok (tt, w', tr) /\
    Game.typing_input g' = w' /\
    Game.remaining_seconds g' = Game.remaining_seconds g /\
    Game.elapsed_seconds g' = Game.elapsed_seconds g /\
    widget_calls gtr = own_calls tr /\
    highlights gtr = outcomes tr /\
    timer_stops gtr = completions tr /\
    List.length (dialogs gtr) = completions tr.
Proof.
  intros Hinv. pose proof (proj1 (proj1 Hinv)) as Hpos.
  exists (with_input g (fst (key_step event (Game.typing_input g)))),
         (game_key_trace event g),
         (fst (key_step event (Game.typing_input g))),
         (snd (key_step event (Game.typing_input g))).
  split; [now apply game_key_step|].
  split; [now apply keyPressEvent_step|].
  do 3 (split; [reflexivity|]).
  unfold game_key_trace, key_step.
  destruct (truthy (_target_code (Game.typing_input g))); [|now repeat split].
  destruct (typed_string event) as [typed|]; [|now repeat split].
  destruct (_current_position (Game.typing_input g)
            <? len (_target_code (Game.typing_input g))); [|now repeat split].
  cbn [snd]. unfold game_trace_of_keystroke, trace_of_keystroke.
  destruct (judged typed (Game.typing_input g)); [|now repeat split].
  destruct (len (_target_code (Game.typing_input g))
            <=? _current_position (Game.typing_input g) + 1); now repeat split.
Qed.

Lemma connected_handler_agrees_witness :
  exists g' gtr w' tr,
    Game.keyPressEvent (press "b") (Game.mkWindow (mkWidget (py "ab") 1 0 1) 30 0 (py "ab"))
      = Ok (tt, g', gtr) /\
    keyPressEvent (press "b") (mkWidget (py "ab") 1 0 1) = Ok (tt, w', tr) /\
    Game.typing_input g' = w' /\
    Game.remaining_seconds g' = 30 /\
    Game.elapsed_seconds g' = 0 /\
    widget_calls gtr = own_calls tr /\
    highlights gtr = outcomes tr /\
    timer_stops gtr = completions tr /\
    List.length (dialogs gtr) = completions tr.
Proof.
  apply (connected_handler_agrees
           (Game.mkWindow (mkWidget (py "ab") 1 0 1) 30 0 (py "ab")) (press "b")).
  unfold invariant, len; simpl; lia.
Defined.

Lemma bar_values_keystroke (typed : str) (g : Game.window) :
  bar_values (game_trace_of_keystroke typed g) = [progress_value (Game.typing_input g)].
Proof.
  unfold game_trace_of_keystroke.
  destruct (judged typed (Game.typing_input g)); [|reflexivity].
  destruct (len (_target_code (Game.typing_input g))
            <=? _current_position (Game.typing_input g) + 1); reflexivity.
Qed.

Lemma is_evaluated_some (event : QKeyEvent) :
  is_evaluated event = true -> exists typed, typed_string event = Some typed.
Proof.
  unfold is_evaluated, typed_string. intros H.
  destruct ((key event =? Key_Return) || (key event =? Key_Enter)); [now eexists|].
  cbn [orb] in H. rewrite H. now eexists.
Qed.

(** X11. The progress bar lags one keystroke behind.  On every evaluated
    key event at a position inside the target the bar is set exactly once,
    from the progress read while the position is still the one before the
    keystroke, also when the keystroke is correct and the position then
    advances. *)
Theorem progress_bar_shows_previous_position (g : Game.window) (event : QKeyEvent) :
  is_evaluated event = true ->
  0 <= _current_position (Game.typing_input g) < len (_target_code (Game.typing_input g)) ->
  exists g' gtr,
    Game.keyPressEvent event g = Ok (tt, g', gtr) /\
    bar_values gtr = [progress_value (Game.typing_input g)] /\
    progress_value (Game.typing_input g) =
      PyFloat (inject_Z (_current_position (Game.typing_input g))
               / inject_Z (len (_target_code (Game.typing_input g))) * 100) /\
    (_current_position (Game.typing_input g') = _current_position (Game.typing_input g) \/
     _current_position (Game.typing_input g') = _current_position (Game.typing_input g) + 1).
Proof.
  intros Hev Hpos. destruct (is_evaluated_some _ Hev) as [typed Hty].
  exists (with_input g (after_keystroke typed (Game.typing_input g))),
         (game_trace_of_keystroke typed g).
  split; [now apply game_key_evaluated|].
  split; [apply bar_values_keystroke|].
  split.
  - unfold progress_value.
    replace (truthy (_target_code (Game.typing_input g))) with true
      by (symmetry; apply truthy_len; lia).
    reflexivity.
  - unfold with_input, after_keystroke. game_fields.
    destruct (judged typed (Game.typing_input g)); [now right|now left].
Qed.

Lemma progress_bar_shows_previous_position_witness :
  exists g' gtr,
    Game.keyPressEvent (press "b") (Game.mkWindow (mkWidget (py "ab") 1 0 1) 30 0 (py "ab"))
      = Ok (tt, g', gtr) /\
    bar_values gtr = [progress_value (mkWidget (py "ab") 1 0 1)] /\
    progress_value (mkWidget (py "ab") 1 0 1) =
      PyFloat (inject_Z 1 / inject_Z (len (py "ab")) * 100) /\
    (_current_position (Game.typing_input g') = 1 \/
     _current_position (Game.typing_input g') = 1 + 1).
Proof.
  apply (progress_bar_shows_previous_position
           (Game.mkWindow (mkWidget (py "ab") 1 0 1) 30 0 (py "ab")) (press "b")).
  - reflexivity.
  - unfold len; simpl; lia.
Defined.

Lemma ratio_below_one (a b : Z) :
  0 <= a < b -> (inject_Z a / inject_Z b * 100 < 100)%Q.
Proof.
  intros Hab.
  assert (HbQ : (0 < inject_Z b)%Q)
    by (change 0%Q with (inject_Z 0); rewrite <- Zlt_Qlt; lia).
  assert (HabQ : (inject_Z a < inject_Z b)%Q) by (rewrite <- Zlt_Qlt; lia).
  assert (H1 : (inject_Z a / inject_Z b < 1)%Q)
    by (apply Qlt_shift_div_r; [exact HbQ|now rewrite Qmult_1_l]).
  lra.
Qed.

(** X12. The keystroke that completes the target ends the game: the widget
    reaches the end of the target, the timer is stopped once, and one results
    dialog is opened with the accuracy, speed and progress of the state after
    the keystroke, its progress reading 100, while the progress bar was last
    set to a value below 100.  The speed is computed from the whole seconds
    elapsed, so it is 0 when the target is completed before the first tick.
    The clock is left as it was and the label ends as "Completed!". *)
Theorem completing_keystroke_ends_game (g : Game.window) (event : QKeyEvent) :
  let w := Game.typing_input g in
  0 <= _current_position w ->
  _current_position w + 1 = len (_target_code w) ->
  logical_char event = Some (expectedChar w (_current_position w)) ->
  exists g' gtr bar progress,
    Game.keyPressEvent event g = Ok (tt, g', gtr) /\
    _current_position (Game.typing_input g') = len (_target_code w) /\
    Game.remaining_seconds g' = Game.remaining_seconds g /\
    Game.elapsed_seconds g' = Game.elapsed_seconds g /\
    timer_stops gtr = 1%nat /\
    dialogs gtr = [(true, accuracy_value (Game.typing_input g'),
                    wpm_value (Game.elapsed_seconds g) (Game.typing_input g'), progress)] /\
    (to_Q progress == 100)%Q /\
    bar_values gtr = [bar] /\ (to_Q bar < 100)%Q /\
    (Game.elapsed_seconds g = 0 ->
     wpm_value (Game.elapsed_seconds g) (Game.typing_input g') = PyInt 0) /\
    last (labels gtr) [] = py "Completed!".
Proof.
  intros w Hlo Hlast Hc.
  assert (Hpos : 0 <= _current_position w < len (_target_code w)) by lia.
  pose proof (game_key_evaluated event _ g (logical_char_typed _ _ Hc) Hpos) as Hk.
  fold w in Hk.
  assert (Hj : judged [expectedChar w (_current_position w)] w = true)
    by (unfold judged; apply str_eqb_refl).
  set (typed := [expectedChar w (_current_position w)]) in *.
  assert (Hlen : 0 < len (_target_code w)) by lia.
  assert (Htr : truthy (_target_code w) = true) by (apply truthy_len; lia).
  exists (with_input g (after_keystroke typed w)), (game_trace_of_keystroke typed g),
         (progress_value w), (progress_value (after_keystroke typed w)).
  split; [exact Hk|].
  unfold game_trace_of_keystroke. fold w. rewrite Hj.
  replace (len (_target_code w) <=? _current_position w + 1) with true
    by (symmetry; apply Z.leb_le; lia).
  unfold with_input, after_keystroke, end_trace. rewrite Hj. game_fields.
  repeat apply conj; try reflexivity.
  - lia.
  - unfold progress_value. game_fields. rewrite Htr. cbn [to_Q].
    rewrite Hlast, (ratio_one _ Hlen). reflexivity.
  - unfold progress_value. rewrite Htr. cbn [to_Q]. apply ratio_below_one. lia.
  - intros H0. unfold wpm_value. now rewrite H0.
Qed.

Lemma completing_keystroke_ends_game_witness :
  exists g' gtr bar progress,
    Game.keyPressEvent (press "b") (Game.mkWindow (mkWidget (py "ab") 1 0 1) 30 0 (py "ab"))
      = Ok (tt, g', gtr) /\
    _current_position (Game.typing_input g') = len (py "ab") /\
    Game.remaining_seconds g' = 30 /\
    Game.elapsed_seconds g' = 0 /\
    timer_stops gtr = 1%nat /\
    dialogs gtr = [(true, accuracy_value (Game.typing_input g'),
                    wpm_value 0 (Game.typing_input g'), progress)] /\
    (to_Q progress == 100)%Q /\
    bar_values gtr = [bar] /\ (to_Q bar < 100)%Q /\
    (0 = 0 -> wpm_value 0 (Game.typing_input g') = PyInt 0) /\
    last (labels gtr) [] = py "Completed!".
Proof.
  apply (completing_keystroke_ends_game
           (Game.mkWindow (mkWidget (py "ab") 1 0 1) 30 0 (py "ab")) (press "b")).
  - simpl; lia.
  - reflexivity.
  - reflexivity.
Defined.

(** *** The clock *)

Lemma update_timer_display_eq (g : Game.window) :
  Game.update_timer_display g =
  Ok (tt, g, [Game.timer_display_setText (time_label (Game.remaining_seconds g))]).
Proof. reflexivity. Qed.

Lemma update_timer_eq (g : Game.window) :
  Game.update_timer g =
  Ok (tt, ticked g,
      Game.timer_display_setText (time_label (Game.remaining_seconds g - 1)) ::
      (if Game.remaining_seconds g - 1 <=? 0 then end_trace false (ticked g) else [])).
Proof.
  unfold Game.update_timer, Game.gbind, Game.gself,
    Game.set_remaining_seconds, Game.set_elapsed_seconds.
  game_fields. rewrite update_timer_display_eq. game_fields.
  fold (ticked g).
  destruct (Game.remaining_seconds g - 1 <=? 0); [rewrite end_game_eq|]; reflexivity.
Qed.

Lemma timer_stops_app (a b : list Game.gui) :
  timer_stops (a ++ b) = (timer_stops a + timer_stops b)%nat.
Proof.
  induction a as [|x a IH]; [reflexivity|]. destruct x; simpl; now rewrite IH.
Qed.

Lemma dialogs_app (a b : list Game.gui) : dialogs (a ++ b) = dialogs a ++ dialogs b.
Proof.
  induction a as [|x a IH]; [reflexivity|]. destruct x; simpl; now rewrite IH.
Qed.

(** Ticks that do not exhaust the remaining time only move the clock. *)
Lemma ticks_before_timeout (k : nat) (g : Game.window) :
  Z.of_nat k < Game.remaining_seconds g ->
  exists tr,
    Game.ticks k g =
      Ok (tt,
          Game.mkWindow (Game.typing_input g) (Game.remaining_seconds g - Z.of_nat k)
                        (Game.elapsed_seconds g + Z.of_nat k) (Game.current_code g),
          tr) /\
    timer_stops tr = 0%nat /\ dialogs tr = [].
Proof.
  revert g. induction k as [|k IH]; intros g Hk.
  - exists []. cbn [Game.ticks]. unfold Game.gret. destruct g. game_fields.
    rewrite Z.sub_0_r, Z.add_0_r. now repeat split.
  - destruct (IH (ticked g)) as (tr & Hrun & Hs & Hd).
    { unfold ticked. game_fields. lia. }
    cbn [Game.ticks]. unfold Game.gbind. rewrite update_timer_eq, Hrun.
    replace (Game.remaining_seconds g - 1 <=? 0) with false
      by (symmetry; apply Z.leb_gt; lia).
    eexists. split.
    + unfold ticked. game_fields. do 3 f_equal.
      f_equal; lia.
    + cbn [app timer_stops dialogs]. now split.
Qed.

(** X13. The clock runs down to the timeout.  From a window with
    [remaining_seconds = D >= 1], the first [D - 1] ticks only move the clock
    (remaining plus elapsed stays the same, the timer is not stopped, no
    dialog), and the [D]-th tick reaches 0, stops the timer once and opens
    one results dialog, not completed, whose speed is computed from the
    elapsed seconds after that tick; the typing widget is never changed. *)
Theorem timeout_after_duration (g : Game.window) (k : nat) :
  1 <= Game.remaining_seconds g ->
  Z.of_nat k <= Game.remaining_seconds g ->
  exists g' tr,
    Game.ticks k g = Ok (tt, g', tr) /\
    Game.typing_input g' = Game.typing_input g /\
    Game.remaining_seconds g' = Game.remaining_seconds g - Z.of_nat k /\
    Game.elapsed_seconds g' = Game.elapsed_seconds g + Z.of_nat k /\
    (Z.of_nat k < Game.remaining_seconds g -> timer_stops tr = 0%nat /\ dialogs tr = []) /\
    (Z.of_nat k = Game.remaining_seconds g ->
     timer_stops tr = 1%nat /\
     dialogs tr =
       [(false, accuracy_value (Game.typing_input g),
         wpm_value (Game.elapsed_seconds g + Game.remaining_seconds g) (Game.typing_input g),
         progress_value (Game.typing_input g))]).
Proof.
  intros HD Hk.
  destruct (Z.eq_dec (Z.of_nat k) (Game.remaining_seconds g)) as [Heq|Hne].
  - destruct k as [|k]; [cbn in Heq; lia|].
    destruct (ticks_before_timeout k g ltac:(lia)) as (tr & Hrun & Hs & Hd).
    set (g1 := Game.mkWindow (Game.typing_input g) (Game.remaining_seconds g - Z.of_nat k)
                             (Game.elapsed_seconds g + Z.of_nat k) (Game.current_code g)) in *.
    assert (Hsplit : forall n h, Game.ticks (S n) h = Game.gbind (Game.ticks n) (fun _ => Game.update_timer) h).
    { induction n as [|n IHn]; intros h.
      - cbn [Game.ticks]. unfold Game.gbind, Game.gret.
        destruct (Game.update_timer h) as [[[[] h1] t1]|]; [|reflexivity].
        now rewrite app_nil_r.
      - change (Game.ticks (S (S n)) h)
          with (Game.gbind Game.update_timer (fun _ => Game.ticks (S n)) h).
        unfold Game.gbind at 1.
        destruct (Game.update_timer h) as [[[[] h1] t1]|] eqn:Hu.
        + rewrite IHn. cbn [Game.ticks]. unfold Game.gbind. rewrite Hu.
          destruct (Game.ticks n h1) as [[[[] h2] t2]|]; [|reflexivity].
          destruct (Game.update_timer h2) as [[[[] h3] t3]|]; [|reflexivity].
          now rewrite app_assoc.
        + cbn [Game.ticks]. unfold Game.gbind. now rewrite Hu. }
    rewrite Hsplit. unfold Game.gbind. rewrite Hrun, update_timer_eq.
    replace (Game.remaining_seconds g1 - 1 <=? 0) with true
      by (symmetry; apply Z.leb_le; unfold g1; game_fields; lia).
    eexists. eexists. split; [reflexivity|].
    unfold ticked, g1. game_fields.
    repeat apply conj; try reflexivity; try lia.
    intros _. rewrite timer_stops_app, dialogs_app, Hs, Hd.
    unfold end_trace. game_fields. cbn [app timer_stops dialogs Nat.add].
    split; [reflexivity|].
    replace (Game.elapsed_seconds g + Z.of_nat k + 1)
      with (Game.elapsed_seconds g + Game.remaining_seconds g) by lia.
    reflexivity.
  - destruct (ticks_before_timeout k g ltac:(lia)) as (tr & Hrun & Hs & Hd).
    eexists. eexists. split; [exact Hrun|]. game_fields.
    repeat apply conj; try reflexivity; try (intros; lia); now intros.
Qed.

Lemma timeout_after_duration_witness :
  exists g' tr,
    Game.ticks 2 (Game.mkWindow (mkWidget (py "ab") 1 0 1) 2 0 (py "ab")) = Ok (tt, g', tr) /\
    Game.typing_input g' = mkWidget (py "ab") 1 0 1 /\
    Game.remaining_seconds g' = 2 - Z.of_nat 2 /\
    Game.elapsed_seconds g' = 0 + Z.of_nat 2 /\
    (Z.of_nat 2 < 2 -> timer_stops tr = 0%nat /\ dialogs tr = []) /\
    (Z.of_nat 2 = 2 ->
     timer_stops tr = 1%nat /\
     dialogs tr =
       [(false, accuracy_value (mkWidget (py "ab") 1 0 1),
         wpm_value (0 + 2) (mkWidget (py "ab") 1 0 1),
         progress_value (mkWidget (py "ab") 1 0 1))]).
Proof.
  apply (timeout_after_duration (Game.mkWindow (mkWidget (py "ab") 1 0 1) 2 0 (py "ab")) 2).
  - simpl; lia.
  - simpl; lia.
Defined.

Lemma format_02d_table :
  forallb (fun n => str_eqb (format_02d (Z.of_nat n)) (two_digits (Z.of_nat n)))
          (seq 0 100) = true.
Proof. vm_compute. reflexivity. Qed.

(** A number below 100 is written with exactly two digits. *)
Lemma format_02d_two_digits (n : Z) :
  0 <= n < 100 -> format_02d n = two_digits n.
Proof.
  intros Hn. pose proof format_02d_table as H.
  rewrite forallb_forall in H.
  specialize (H (Z.to_nat n)).
  rewrite Z2Nat.id in H by lia.
  apply str_eqb_eq, H, in_seq. lia.
Qed.

(** X14. For a remaining time from 0 seconds to under 100 minutes the
    clock label is "Time: mm:ss": two decimal digits for the whole minutes
    and two for the seconds under a minute, which together make up the
    remaining time.  The window is not changed. *)
Theorem timer_label_is_mm_ss (g : Game.window) :
  0 <= Game.remaining_seconds g < 6000 ->
  exists m s,
    0 <= m < 100 /\ 0 <= s < 60 /\
    Game.remaining_seconds g = 60 * m + s /\
    Game.update_timer_display g =
      Ok (tt, g,
          [Game.timer_display_setText
             (py "Time: " ++ [digit_char (m / 10); digit_char (m mod 10)] ++ py ":"
              ++ [digit_char (s / 10); digit_char (s mod 10)])]).
Proof.
  intros Hr.
  exists (Game.remaining_seconds g / 60), (Game.remaining_seconds g mod 60).
  pose proof (Z.mod_pos_bound (Game.remaining_seconds g) 60 ltac:(lia)) as Hs.
  pose proof (Z.div_mod (Game.remaining_seconds g) 60 ltac:(lia)) as Hdm.
  assert (Hm : 0 <= Game.remaining_seconds g / 60 < 100).
  { split; [apply Z.div_pos; lia|apply Z.div_lt_upper_bound; lia]. }
  repeat split; try lia.
  rewrite update_timer_display_eq. unfold time_label.
  rewrite !format_02d_two_digits by lia. reflexivity.
Qed.

Lemma timer_label_is_mm_ss_witness :
  exists m s,
    0 <= m < 100 /\ 0 <= s < 60 /\
    Game.remaining_seconds (Game.mkWindow init 125 0 []) = 60 * m + s /\
    Game.update_timer_display (Game.mkWindow init 125 0 []) =
      Ok (tt, Game.mkWindow init 125 0 [],
          [Game.timer_display_setText
             (py "Time: " ++ [digit_char (m / 10); digit_char (m mod 10)] ++ py ":"
              ++ [digit_char (s / 10); digit_char (s mod 10)])]).
Proof.
  apply (timer_label_is_mm_ss (Game.mkWindow init 125 0 [])). simpl; lia.
Defined.

Lemma bar_values_app (a b : list Game.gui) :
  bar_values (a ++ b) = bar_values a ++ bar_values b.
Proof.
  induction a as [|x a IH]; [reflexivity|]. destruct x; simpl; now rewrite IH.
Qed.

Lemma bar_values_key (event : QKeyEvent) (g : Game.window) :
  invariant (Game.typing_input g) ->
  Forall (fun v => (to_Q v < 100)%Q) (bar_values (game_key_trace event g)).
Proof.
  intros [Hp _]. unfold game_key_trace.
  destruct (truthy (_target_code (Game.typing_input g))) eqn:Htr; [|constructor].
  destruct (typed_string event) as [typed|]; [|constructor].
  destruct (_current_position (Game.typing_input g)
            <? len (_target_code (Game.typing_input g))) eqn:Hlt; [|constructor].
  apply Z.ltb_lt in Hlt. rewrite bar_values_keystroke.
  constructor; [|constructor].
  unfold progress_value. rewrite Htr. cbn [to_Q]. apply ratio_below_one. lia.
Qed.

(** X21. The progress bar never reaches 100 while typing.  Along any
    sequence of key events delivered to the connected handler from a state
    that meets the invariant, nothing raises and every value the bar is set
    to is below 100: the bar is set before the position advances, and never
    once the target is complete. *)
Theorem progress_bar_never_full (events : list QKeyEvent) (g : Game.window) :
  invariant (Game.typing_input g) ->
  exists g' tr,
    game_run events g = Ok (tt, g', tr) /\
    invariant (Game.typing_input g') /\
    Forall (fun v => (to_Q v < 100)%Q) (bar_values tr).
Proof.
  revert g. induction events as [|e rest IH]; intros g Hinv.
  - exists g, []. repeat split; try apply Hinv. constructor.
  - pose proof (key_step_facts e (Game.typing_input g) Hinv) as Hs. cbv zeta in Hs.
    destruct Hs as (Hinv1 & _).
    destruct (IH (with_input g (fst (key_step e (Game.typing_input g)))) Hinv1)
      as (g2 & t2 & Hrun & Hinv2 & Hbar).
    exists g2, (game_key_trace e g ++ t2).
    split.
    { cbn [game_run]. unfold Game.gbind.
      rewrite (game_key_step e g (proj1 (proj1 Hinv))), Hrun. reflexivity. }
    split; [exact Hinv2|].
    rewrite bar_values_app. apply Forall_app. split; [now apply bar_values_key|exact Hbar].
Qed.

Lemma progress_bar_never_full_witness :
  exists g' tr,
    game_run [press "a"; press "b"] (Game.mkWindow (mkWidget (py "ab") 0 0 0) 30 0 (py "ab"))
      = Ok (tt, g', tr) /\
    invariant (Game.typing_input g') /\
    Forall (fun v => (to_Q v < 100)%Q) (bar_values tr).
Proof.
  apply (progress_bar_never_full [press "a"; press "b"]
           (Game.mkWindow (mkWidget (py "ab") 0 0 0) 30 0 (py "ab"))).
  unfold invariant, len; simpl; lia.
Defined.

(** * start_game: the length band *)

Lemma splitlines_clean_bounded (n : nat) (s : str) :
  (List.length s <= n)%nat -> Forall (fun line => clean_line line = true) (splitlines s).
Proof.
  revert s. induction n as [|n IH]; intros s Hn.
  - destruct s; [constructor|cbn in Hn; lia].
  - destruct s as [|c s']; [constructor|]. cbn [List.length] in Hn.
    cbn [splitlines]. destruct (is_linebreak c) eqn:Hc.
    + constructor; [reflexivity|].
      destruct s' as [|d s'']; [constructor|].
      destruct ((c =? 13)%N && (d =? 10)%N); apply IH; cbn [List.length] in *; lia.
    + assert (H1 : Forall (fun line => clean_line line = true) (splitlines s'))
        by (apply IH; lia).
      destruct (splitlines s') as [|line lines].
      * constructor; [|constructor]. unfold clean_line. cbn. now rewrite Hc.
      * inversion H1; subst. constructor; [|assumption].
        unfold clean_line in *. cbn. now rewrite Hc.
Qed.

(** The lines [splitlines] returns hold no line end. *)
Lemma splitlines_clean (s : str) :
  Forall (fun line => clean_line line = true) (splitlines s).
Proof. apply (splitlines_clean_bounded (List.length s)). lia. Qed.

(** A clean line followed by a newline is one line. *)
Lemma splitlines_line (line rest : str) :
  clean_line line = true ->
  splitlines (line ++ 10%N :: rest) = line :: splitlines rest.
Proof.
  induction line as [|c line IH]; intros Hc.
  - cbn. now destruct rest.
  - unfold clean_line in Hc. cbn [forallb] in Hc. apply andb_true_iff in Hc.
    destruct Hc as [Hc Hl]. apply negb_true_iff in Hc.
    cbn [app splitlines]. rewrite Hc, (IH Hl). reflexivity.
Qed.

Lemma splitlines_one (line : str) :
  clean_line line = true ->
  splitlines line = match line with [] => [] | _ :: _ => [line] end.
Proof.
  induction line as [|c line IH]; intros Hc; [reflexivity|].
  unfold clean_line in Hc. cbn [forallb] in Hc. apply andb_true_iff in Hc.
  destruct Hc as [Hc Hl]. apply negb_true_iff in Hc.
  cbn [splitlines]. rewrite Hc, (IH Hl). now destruct line.
Qed.

(** Joining clean lines with newlines and splitting again gives the lines
    back, except for a final empty line. *)
Lemma splitlines_join (lines : list str) :
  Forall (fun line => clean_line line = true) lines ->
  splitlines (join newline lines) = drop_final_empty lines.
Proof.
  induction lines as [|line rest IH]; intros Hall; [reflexivity|].
  inversion Hall as [|? ? Hline Hrest]; subst.
  destruct rest as [|line2 rest].
  - cbn [join drop_final_empty]. now apply splitlines_one.
  - change (join newline (line :: line2 :: rest))
      with (line ++ 10%N :: join newline (line2 :: rest)).
    rewrite (splitlines_line _ _ Hline), (IH Hrest). reflexivity.
Qed.

Lemma drop_final_empty_prefix (lines : list str) :
  drop_final_empty lines = firstn (List.length (drop_final_empty lines)) lines /\
  (List.length lines - 1 <= List.length (drop_final_empty lines) <= List.length lines)%nat.
Proof.
  induction lines as [|line rest IH]; [now split|].
  destruct rest as [|line2 rest].
  - destruct line; cbn; split; try reflexivity; lia.
  - destruct IH as [IH1 IH2].
    change (drop_final_empty (line :: line2 :: rest))
      with (line :: drop_final_empty (line2 :: rest)).
    cbn [List.length firstn] in *. split; [now rewrite <- IH1|lia].
Qed.

Lemma Forall_firstn_clean (n : nat) (lines : list str) :
  Forall (fun line => clean_line line = true) lines ->
  Forall (fun line => clean_line line = true) (firstn n lines).
Proof.
  revert n. induction lines as [|l ls IH]; intros n H.
  - rewrite firstn_nil. constructor.
  - destruct n; [constructor|]. inversion H; subst.
    cbn [firstn]. constructor; auto.
Qed.

(** The shape of what the length band returns. *)
Lemma length_band_shape (generated sample : str) :
  let result := length_band generated sample in
  let n := List.length (splitlines result) in
  result = sample \/
  ((175 <= n <= 200)%nat /\
   splitlines result = firstn n (splitlines generated) /\
   ((200 < List.length (splitlines generated))%nat -> (199 <= n)%nat)).
Proof.
  cbv zeta. unfold length_band, len_list.
  destruct (200 <? Z.of_nat (List.length (splitlines generated))) eqn:Hlong.
  - apply Z.ltb_lt in Hlong. right.
    assert (Hclean : Forall (fun line => clean_line line = true)
                            (firstn 200 (splitlines generated)))
      by (apply Forall_firstn_clean, splitlines_clean).
    rewrite (splitlines_join _ Hclean).
    destruct (drop_final_empty_prefix (firstn 200 (splitlines generated))) as [Hpre Hlen].
    rewrite length_firstn in Hlen.
    replace (Nat.min 200 (List.length (splitlines generated))) with 200%nat in Hlen by lia.
    repeat split; try lia.
    rewrite Hpre at 1. rewrite firstn_firstn. f_equal. lia.
  - apply Z.ltb_ge in Hlong.
    destruct (Z.of_nat (List.length (splitlines generated)) <? 175) eqn:Hshort.
    + now left.
    + apply Z.ltb_ge in Hshort. right.
      repeat split; try lia. now rewrite firstn_all.
Qed.


(** X16. The length band is stable: when the sample code has at most 200
    lines, applying the band to its own result changes nothing, so the text
    handed to the widget passes the same check again. *)
Theorem length_band_idempotent (generated sample : str) :
  (List.length (splitlines sample) <= 200)%nat ->
  length_band (length_band generated sample) sample = length_band generated sample.
Proof.
  intros Hsample.
  assert (Hfix : forall text,
             (List.length (splitlines text) <= 200)%nat ->
             length_band text sample = text \/ length_band text sample = sample).
  { intros text Ht. unfold length_band, len_list.
    replace (200 <? Z.of_nat (List.length (splitlines text))) with false
      by (symmetry; apply Z.ltb_ge; lia).
    destruct (Z.of_nat (List.length (splitlines text)) <? 175); [now right|now left]. }
  destruct (length_band_shape generated sample) as [Hs|(Hn & _)]; cbv zeta in *.
  - rewrite Hs. destruct (Hfix sample Hsample) as [H|H]; exact H.
  - unfold length_band at 1, len_list.
    replace (200 <? Z.of_nat (List.length (splitlines (length_band generated sample))))
      with false by (symmetry; apply Z.ltb_ge; lia).
    replace (Z.of_nat (List.length (splitlines (length_band generated sample))) <? 175)
      with false by (symmetry; apply Z.ltb_ge; lia).
    reflexivity.
Qed.

Lemma length_band_idempotent_witness :
  length_band (length_band [97; 10; 98]%N [99]%N) [99]%N = length_band [97; 10; 98]%N [99]%N.
Proof.
  apply (length_band_idempotent [97; 10; 98]%N [99]%N). cbn. lia.
Defined.

(** * CodeGenerator.generate_code *)


Lemma lacks_cons (c x : char) (s : str) :
  lacks c (x :: s) = true -> x <> c /\ lacks c s = true.
Proof.
  unfold lacks. cbn [forallb]. intros H. apply andb_true_iff in H.
  destruct H as [Hx Hs]. apply negb_true_iff, N.eqb_neq in Hx. now split.
Qed.


Lemma split_fence_last (s : str) :
  lacks backtick s = true -> split fence s = [s].
Proof.
  unfold split. induction s as [|c s IH]; intros Hl; [reflexivity|].
  apply lacks_cons in Hl. destruct Hl as [Hc Hl].
  cbn [split_from].
  replace (starts_with fence (c :: s)) with false.
  - now rewrite (IH Hl).
  - symmetry. unfold fence. cbn [py map list_ascii_of_string starts_with].
    replace (N_of_ascii "`" =? c)%N with false; [reflexivity|].
    symmetry. apply N.eqb_neq. intros H. apply Hc. now rewrite <- H.
Qed.

Lemma contains_app_r (sub pre s : str) :
  contains sub s = true -> contains sub (pre ++ s) = true.
Proof.
  intros H. induction pre as [|c pre IH]; [exact H|].
  cbn [app contains]. rewrite IH. apply orb_true_r.
Qed.



(** Splitting at newlines and joining with newlines gives the text back. *)
Lemma join_split_newline (s : str) : join newline (split newline s) = s.
Proof.
  unfold split. induction s as [|c s IH]; [reflexivity|].
  cbn [split_from]. destruct (starts_with newline (c :: s)) eqn:Hs.
  - unfold newline in Hs. cbn [starts_with] in Hs.
    rewrite andb_true_r in Hs. apply N.eqb_eq in Hs. subst c.
    change (List.length newline - 1)%nat with 0%nat.
    destruct (split_from newline 0 s) as [|p ps] eqn:E.
    + destruct s; cbn in E; [discriminate|].
      destruct (starts_with newline (c :: s)); [discriminate|].
      destruct (split_from newline 0 s); discriminate.
    + cbn [join app]. cbn [join] in IH. now rewrite IH.
  - destruct (split_from newline 0 s) as [|p ps] eqn:E.
    + destruct s; cbn in E; [discriminate|].
      destruct (starts_with newline (c0 :: s)); [discriminate|].
      destruct (split_from newline 0 s); discriminate.
    + destruct ps as [|p2 ps]; cbn [join app] in *; now rewrite IH.
Qed.











(** *** No fence is ever returned *)

Lemma starts_with_prefix (sep p rest : str) :
  starts_with sep p = true -> starts_with sep (p ++ rest) = true.
Proof.
  revert p. induction sep as [|a sep IH]; intros p H; [reflexivity|].
  destruct p as [|b p]; [discriminate|].
  cbn [starts_with app] in *. apply andb_true_iff in H. destruct H as [Hab Hp].
  now rewrite Hab, (IH p Hp).
Qed.

(** The parts [split] returns do not hold the separator, and the first
    part is the beginning of the text. *)
Lemma split_from_parts (sep : str) (s : str) :
  sep <> [] ->
  forall skip,
    Forall (fun part => contains sep part = false) (split_from sep skip s) /\
    (skip = 0%nat ->
     exists part parts rest, split_from sep 0 s = part :: parts /\ s = part ++ rest).
Proof.
  intros Hsep. induction s as [|c s IH]; intros skip.
  - cbn [split_from contains]. split.
    + constructor; [|constructor]. destruct sep; [now destruct Hsep|reflexivity].
    + intros _. now exists [], [], [].
  - destruct skip as [|k].
    + cbn [split_from]. destruct (starts_with sep (c :: s)) eqn:Hs.
      * split.
        -- constructor; [|apply IH]. destruct sep; [now destruct Hsep|reflexivity].
        -- intros _. now exists [], (split_from sep (List.length sep - 1) s), (c :: s).
      * destruct (IH 0%nat) as [Hall Hpre]. destruct (Hpre eq_refl) as (p & ps & rest & E & Es).
        rewrite E in *. split.
        -- inversion Hall as [|? ? Hp Hps]; subst. constructor; [|exact Hps].
           cbn [contains]. rewrite Hp, orb_false_r.
           destruct (starts_with sep (c :: p)) eqn:Hcp; [|reflexivity].
           apply (starts_with_prefix _ _ rest) in Hcp. cbn [app] in Hcp.
           congruence.
        -- intros _. exists (c :: p), ps, rest. split; [reflexivity|]. cbn [app]. now f_equal.
    + cbn [split_from]. split; [apply IH|discriminate].
Qed.

Lemma contains_suffix (sub pre s : str) :
  contains sub (pre ++ s) = false -> contains sub s = false.
Proof.
  intros H. destruct (contains sub s) eqn:E; [|reflexivity].
  now rewrite (contains_app_r sub pre s E) in H.
Qed.

(** Without its first line a text is an end of itself. *)
Lemma rest_of_lines_is_suffix (block : str) :
  exists pre, block = pre ++ join newline (tl (split newline block)).
Proof.
  destruct (split newline block) as [|first rest] eqn:E.
  - exists block. cbn. now rewrite app_nil_r.
  - pose proof (join_split_newline block) as H. rewrite E in H.
    destruct rest as [|second rest].
    + exists block. cbn. now rewrite app_nil_r.
    + exists (first ++ newline). cbn [tl]. rewrite <- H at 1.
      change (join newline (first :: second :: rest))
        with (first ++ newline ++ join newline (second :: rest)).
      now rewrite app_assoc.
Qed.

Lemma split_once_suffix (block code : str) :
  item (split_once newline block) 1 = Ok code -> exists pre, block = pre ++ code.
Proof.
  revert code. induction block as [|c block IH]; intros code H; [discriminate H|].
  cbn [split_once] in H. destruct (starts_with newline (c :: block)) eqn:Hs.
  - cbn in H. injection H as <-. now exists [c].
  - destruct (split_once newline block) as [|p ps] eqn:E; [discriminate H|].
    assert (H' : item (p :: ps) 1 = Ok code) by exact H.
    destruct (IH code H') as [pre Hpre]. exists (c :: pre). cbn [app]. now f_equal.
Qed.

Lemma first_matching_block_suffix (o : outside) (language full : str)
      (blocks : list str) (code : str) :
  first_matching_block o language full blocks = Some code ->
  exists block pre, In block blocks /\ block = pre ++ code.
Proof.
  induction blocks as [|block rest IH]; intros H; [discriminate H|].
  cbn [first_matching_block] in H.
  destruct (contains language block || contains (lower o full) (lower o block)).
  - injection H as <-. destruct (rest_of_lines_is_suffix block) as [pre Hpre].
    exists block, pre. split; [now left|exact Hpre].
  - destruct (IH H) as (b & pre & Hin & Hb). exists b, pre. split; [now right|exact Hb].
Qed.

Lemma fence_nonempty : fence <> [].
Proof. discriminate. Qed.

(** X20. [generate_code] never returns a text with a markdown fence in it,
    unless it is the sample code: whatever the reply, what is returned from
    it holds no three backticks in a row. *)
Theorem no_fence_is_returned (o : outside) (is_api_available : bool) (language : str) :
  generate_code o is_api_available language = _get_sample_code o language \/
  contains fence (generate_code o is_api_available language) = false.
Proof.
  unfold generate_code. destruct is_api_available; cbn [negb]; [|now left].
  destruct (generate_code_try o language) as [code|] eqn:Htry; [|now left].
  right. unfold generate_code_try in Htry.
  destruct (chat_completion o (prompt (dict_get language_map language language)))
    as [reply|]; [|discriminate].
  destruct (contains fence reply) eqn:Hf.
  2:{ injection Htry as <-. exact Hf. }
  pose proof (proj1 (split_from_parts fence reply fence_nonempty 0%nat)) as Hparts.
  fold (split fence reply) in Hparts. rewrite Forall_forall in Hparts.
  destruct (first_matching_block o language (dict_get language_map language language)
                                 (split fence reply)) as [found|] eqn:Hloop.
  - injection Htry as <-.
    destruct (first_matching_block_suffix _ _ _ _ _ Hloop) as (block & pre & Hin & Hb).
    apply (contains_suffix fence pre). rewrite <- Hb. now apply Hparts.
  - destruct (item (split fence reply) 1) as [block|] eqn:Hitem; [|discriminate].
    destruct (item (split_once newline block) 1) as [code'|] eqn:Hcode; [|discriminate].
    injection Htry as <-.
    destruct (split_once_suffix _ _ Hcode) as [pre Hpre].
    apply (contains_suffix fence pre). rewrite <- Hpre. apply Hparts.
    unfold item in Hitem.
    destruct (nth_error (split fence reply) 1) as [b|] eqn:Hn; [|discriminate].
    injection Hitem as <-. now apply nth_error_In in Hn.
Qed.

